(** * dejavu/database_sqlite.py: the SQLite fingerprint store

    A shallow embedding of [SQLiteDatabase] (songs and fingerprints tables,
    bulk ingestion, chunked matching) and of the helper [grouper], with the
    properties of the store proved about the embedding.

    Layout: the Python builtins the module calls ([str.upper],
    [bytes.fromhex], [bytes.hex], [dict], [itertools.zip_longest]), then the
    SQL statements of the class as functions on the tables of one
    connection, then the methods, then the theorems. *)

From Stdlib Require Import List String Ascii ZArith NArith Lia Bool.
From Stdlib Require Import Strings.Byte.
Import ListNotations.

Local Open Scope string_scope.
Local Open Scope Z_scope.
Local Open Scope list_scope.

(* ================================================================= *)
(** ** Python builtins *)

(** Python [str] is [string], for ASCII strings, which is what a
    hexadecimal string is.  A [str] with a character outside ASCII is
    outside the model: [str.upper] maps some of them into ASCII (U+FB00,
    the ligature ff, to FF), which a [string] cannot hold.  Where a theorem
    lets [upper] run over the strings of a caller, it assumes [isascii] of
    them.  Python [bytes] is [list byte]. *)
Module Py.

Definition bytes := list byte.

(** [c.upper()] for one ASCII character: a..z go to A..Z. *)
Definition upper_char (c : ascii) : ascii :=
  let n := N_of_ascii c in
  if ((97 <=? n) && (n <=? 122))%N then ascii_of_N (n - 32) else c.

(** [str.upper] on an ASCII string. *)
Fixpoint upper (s : string) : string :=
  match s with
  | EmptyString => EmptyString
  | String c s' => String (upper_char c) (upper s')
  end.

(** The value of a hexadecimal digit (CPython's [_PyLong_DigitValue]
    restricted to values below 16). *)
Definition digit_value (c : ascii) : option N :=
  let n := N_of_ascii c in
  if ((48 <=? n) && (n <=? 57))%N then Some (n - 48)%N
  else if ((97 <=? n) && (n <=? 102))%N then Some (n - 87)%N
  else if ((65 <=? n) && (n <=? 70))%N then Some (n - 55)%N
  else None.

(** ASCII whitespace ([Py_ISSPACE]): tab, newline, vertical tab, form feed,
    carriage return, space. *)
Definition isspace (c : ascii) : bool :=
  let n := N_of_ascii c in
  (((9 <=? n) && (n <=? 13)) || (n =? 32))%N.

Definition byte_of_nibbles (hi lo : N) : byte :=
  match Byte.of_N (16 * hi + lo) with
  | Some b => b
  | None => x00
  end.

(** [bytes.fromhex]: two hexadecimal digits per byte, ASCII whitespace
    skipped between bytes; [None] stands for [ValueError]. *)
Fixpoint fromhex (s : string) : option bytes :=
  match s with
  | EmptyString => Some []
  | String c s' =>
      if isspace c then fromhex s'
      else
        match s' with
        | EmptyString => None
        | String d s'' =>
            match digit_value c, digit_value d with
            | Some hi, Some lo =>
                match fromhex s'' with
                | Some bs => Some (byte_of_nibbles hi lo :: bs)
                | None => None
                end
            | _, _ => None
            end
        end
  end.

Definition lower_digit (n : N) : ascii :=
  if (n <? 10)%N then ascii_of_N (48 + n) else ascii_of_N (87 + n).

(** [bytes.hex]: two lowercase digits per byte. *)
Fixpoint hex (bs : bytes) : string :=
  match bs with
  | [] => EmptyString
  | b :: bs' =>
      let n := Byte.to_N b in
      String (lower_digit (n / 16)) (String (lower_digit (n mod 16)) (hex bs'))
  end.

(** [str.isascii]: every character is below 128. *)
Fixpoint isascii (s : string) : bool :=
  match s with
  | EmptyString => true
  | String c s' => (N_of_ascii c <? 128)%N && isascii s'
  end.

(** Truthiness of a [str]: only the empty string is falsy. *)
Definition truthy (s : string) : bool :=
  match s with
  | EmptyString => false
  | String _ _ => true
  end.

(** *** dict with string keys and integer values

    A Python dict keeps its keys in order of first insertion; assigning to
    a key that is present replaces the value in place. *)
Definition dict := list (string * Z).

Fixpoint dict_set (k : string) (v : Z) (d : dict) : dict :=
  match d with
  | [] => [(k, v)]
  | (k', v') :: d' =>
      if String.eqb k' k then (k', v) :: d' else (k', v') :: dict_set k v d'
  end.

(** [d[k]]; [None] stands for [KeyError]. *)
Fixpoint dict_get (k : string) (d : dict) : option Z :=
  match d with
  | [] => None
  | (k', v') :: d' => if String.eqb k' k then Some v' else dict_get k d'
  end.

Definition keys (d : dict) : list string := map fst d.

(** *** itertools.zip_longest over [n] references to ONE iterator

    [zip_longest( *[iter(l)] * n )]: every tuple takes the next [n] items of
    the shared iterator; once it is exhausted the rest of the tuple is
    filled with [None], and a tuple that would hold no item is not
    produced.  [k] counts the slots still free in the tuple being built and
    [acc] holds its slots in reverse. *)
Fixpoint zip_longest_from {A} (n k : nat) (acc : list (option A)) (l : list A)
  : list (list (option A)) :=
  match l with
  | [] =>
      match acc with
      | [] => []
      | _ :: _ => [rev acc ++ repeat None k]
      end
  | x :: l' =>
      match k with
      | O => []
      | S O => rev (Some x :: acc) :: zip_longest_from n n [] l'
      | S k' => zip_longest_from n k' (Some x :: acc) l'
      end
  end.

Definition zip_longest_shared {A} (l : list A) (n : nat) : list (list (option A)) :=
  zip_longest_from n n [] l.

End Py.

(** [grouper(iterable, n)]:
    [([v for v in values if v] for values in zip_longest( *args ))]. *)
Definition keep_truthy (values : list (option string)) : list string :=
  flat_map (fun v => match v with
                     | Some s => if Py.truthy s then [s] else []
                     | None => []
                     end) values.

Definition grouper (iterable : list string) (n : nat) : list (list string) :=
  map keep_truthy (Py.zip_longest_shared iterable n).

(* ================================================================= *)
(** ** The storage engine *)

(** Python exceptions the module can let through. *)
Inductive exn : Type :=
| ValueError        (* bytes.fromhex on a string that is not hexadecimal *)
| KeyError          (* mapper[...] on a missing key *)
| OverflowError     (* a Python int that does not fit SQLite's INTEGER *)
| IntegrityError    (* UNIQUE or FOREIGN KEY constraint failed *)
| OperationalError. (* no such table; database or disk is full *)

Inductive outcome (A : Type) : Type :=
| Returned (a : A)
| Raised (e : exn).
Arguments Returned {A} a.
Arguments Raised {A} e.

(** A row of [songs]: song_id INTEGER PRIMARY KEY AUTOINCREMENT,
    song_name TEXT NOT NULL, fingerprinted INTEGER DEFAULT 0,
    file_sha1 BLOB NOT NULL UNIQUE. *)
Record song : Type := mkSong {
  song_id : Z;
  song_name : string;
  fingerprinted : Z;
  file_sha1 : Py.bytes
}.

(** A row of [fingerprints]: hash BLOB, song_id INTEGER, offset INTEGER,
    UNIQUE (hash, song_id, offset), song_id REFERENCES songs(song_id)
    ON DELETE CASCADE. *)
Record fingerprint : Type := mkFingerprint {
  hash : Py.bytes;
  fp_song_id : Z;
  offset : Z
}.

(** What one connection sees: whether foreign keys are enforced on it, and
    each table ([None]: the table does not exist) in row order.
    [sqlite_sequence] is the largest song_id AUTOINCREMENT has handed out. *)
Record connection : Type := mkConnection {
  foreign_keys : bool;
  songs : option (list song);
  sqlite_sequence : Z;
  fingerprints : option (list fingerprint)
}.

Definition with_songs (ss : option (list song)) (c : connection) : connection :=
  mkConnection (foreign_keys c) ss (sqlite_sequence c) (fingerprints c).
Definition with_sequence (n : Z) (c : connection) : connection :=
  mkConnection (foreign_keys c) (songs c) n (fingerprints c).
Definition with_fingerprints (fs : option (list fingerprint)) (c : connection)
  : connection :=
  mkConnection (foreign_keys c) (songs c) (sqlite_sequence c) fs.

(** A statement or method run on the connection: the connection afterwards
    (kept when an exception leaves the call) and what the call did. *)
Definition M (A : Type) : Type := connection -> connection * outcome A.

Definition ret {A} (a : A) : M A := fun c => (c, Returned a).
Definition raise {A} (e : exn) : M A := fun c => (c, Raised e).
Definition bind {A B} (m : M A) (k : A -> M B) : M B :=
  fun c =>
    match m c with
    | (c', Returned a) => k a c'
    | (c', Raised e) => (c', Raised e)
    end.

Notation "x <- m ;; k" := (bind m (fun x => k))
  (at level 61, m at next level, right associativity).
Notation "m ;;; k" := (bind m (fun _ => k))
  (at level 61, right associativity).

Module Sql.

Definition max_int64 : Z := 9223372036854775807.

(** A Python int is bound to a statement as a 64-bit signed INTEGER. *)
Definition fits_int64 (z : Z) : bool :=
  (- max_int64 - 1 <=? z) && (z <=? max_int64).

Fixpoint bytes_eqb (a b : Py.bytes) : bool :=
  match a, b with
  | [], [] => true
  | x :: a', y :: b' => Byte.eqb x y && bytes_eqb a' b'
  | _, _ => false
  end.

Definition fingerprint_eqb (r r' : fingerprint) : bool :=
  bytes_eqb (hash r) (hash r')
  && (fp_song_id r =? fp_song_id r')
  && (offset r =? offset r').

Definition upper_digit (n : N) : ascii :=
  if (n <? 10)%N then ascii_of_N (48 + n) else ascii_of_N (55 + n).

(** SQL [hex(blob)]: two uppercase digits per byte. *)
Fixpoint hex (bs : Py.bytes) : string :=
  match bs with
  | [] => EmptyString
  | b :: bs' =>
      let n := Byte.to_N b in
      String (upper_digit (n / 16)) (String (upper_digit (n mod 16)) (hex bs'))
  end.

(** [conn.commit()]: what the connection itself sees does not change. *)
Definition commit : M unit := ret tt.

(** CREATE TABLE IF NOT EXISTS songs. *)
Definition CREATE_SONGS_TABLE : M unit := fun c =>
  match songs c with
  | Some _ => (c, Returned tt)
  | None => (with_sequence 0 (with_songs (Some []) c), Returned tt)
  end.

(** CREATE TABLE IF NOT EXISTS fingerprints. *)
Definition CREATE_FINGERPRINTS_TABLE : M unit := fun c =>
  match fingerprints c with
  | Some _ => (c, Returned tt)
  | None => (with_fingerprints (Some []) c, Returned tt)
  end.

Definition has_id (ids : list Z) (z : Z) : bool := existsb (Z.eqb z) ids.

(** DELETE FROM songs WHERE p.  With foreign keys on, ON DELETE CASCADE
    deletes the fingerprints whose song_id is the id of a deleted row. *)
Definition delete_songs_where (p : song -> bool) : M unit := fun c =>
  match songs c with
  | None => (c, Raised OperationalError)
  | Some ss =>
      let gone := map song_id (filter p ss) in
      let fs' :=
        if foreign_keys c
        then option_map
               (filter (fun f => negb (has_id gone (fp_song_id f))))
               (fingerprints c)
        else fingerprints c in
      (with_fingerprints fs' (with_songs (Some (filter (fun s => negb (p s)) ss)) c),
       Returned tt)
  end.

(** DELETE FROM songs WHERE fingerprinted = 0. *)
Definition DELETE_UNFINGERPRINTED : M unit :=
  delete_songs_where (fun s => fingerprinted s =? 0).

(** DROP TABLE IF EXISTS fingerprints. *)
Definition DROP_FINGERPRINTS : M unit := fun c =>
  (with_fingerprints None c, Returned tt).

(** DROP TABLE IF EXISTS songs: the rows are deleted first (with the
    foreign-key actions that follows from), then the table and its
    AUTOINCREMENT counter go. *)
Definition DROP_SONGS : M unit := fun c =>
  match songs c with
  | None => (c, Returned tt)
  | Some _ =>
      let (c', _) := delete_songs_where (fun _ => true) c in
      (with_sequence 0 (with_songs None c'), Returned tt)
  end.

Definition max_rowid (ss : list song) : Z :=
  fold_right (fun s m => Z.max (song_id s) m) 0 ss.

(** INSERT INTO songs (song_name, file_sha1) VALUES (?, ?): the new
    song_id is one more than the largest ever used, fingerprinted takes its
    default 0; the result is [cur.lastrowid]. *)
Definition INSERT_SONG (songname : string) (sha1 : Py.bytes) : M Z := fun c =>
  match songs c with
  | None => (c, Raised OperationalError)
  | Some ss =>
      let top := Z.max (sqlite_sequence c) (max_rowid ss) in
      if max_int64 <=? top then (c, Raised OperationalError)
      else if existsb (fun s => bytes_eqb (file_sha1 s) sha1) ss
      then (c, Raised IntegrityError)
      else
        let id := top + 1 in
        (with_sequence id (with_songs (Some (ss ++ [mkSong id songname 0 sha1])) c),
         Returned id)
  end.

(** Both tables of INSERT_FINGERPRINT must exist for the statement to
    compile; with foreign keys on that includes the parent table. *)
Definition prepare_insert_fingerprint : M unit := fun c =>
  match fingerprints c, (negb (foreign_keys c) || match songs c with Some _ => true | None => false end)%bool with
  | Some _, true => (c, Returned tt)
  | _, _ => (c, Raised OperationalError)
  end.

(** INSERT OR IGNORE INTO fingerprints VALUES (?, ?, ?), one row: a row
    that is already there is skipped; OR IGNORE does not cover the
    foreign key, whose violation fails the statement. *)
Definition step_insert_fingerprint (r : fingerprint) : M unit := fun c =>
  if negb (fits_int64 (fp_song_id r) && fits_int64 (offset r))
  then (c, Raised OverflowError)
  else
    match fingerprints c with
    | None => (c, Raised OperationalError)
    | Some fs =>
        if existsb (fingerprint_eqb r) fs then (c, Returned tt)
        else if foreign_keys c
                && negb (has_id (map song_id (match songs c with Some ss => ss | None => [] end))
                                (fp_song_id r))
        then (c, Raised IntegrityError)
        else (with_fingerprints (Some (fs ++ [r])) c, Returned tt)
    end.

(** [conn.execute(INSERT_FINGERPRINT, row)]. *)
Definition INSERT_FINGERPRINT (r : fingerprint) : M unit :=
  prepare_insert_fingerprint ;;; step_insert_fingerprint r.

Fixpoint step_all (rows : list fingerprint) : M unit :=
  match rows with
  | [] => ret tt
  | r :: rows' => step_insert_fingerprint r ;;; step_all rows'
  end.

(** [conn.executemany(INSERT_FINGERPRINT, rows)]: compiled once, run row
    by row; rows before a failing one stay inserted. *)
Definition INSERT_FINGERPRINT_many (rows : list fingerprint) : M unit :=
  prepare_insert_fingerprint ;;; step_all rows.

(** SELECT hash, song_id, offset FROM fingerprints WHERE hash IN (params).
    The engine promises no order of the rows; the model takes the order of
    the table, and the theorems on matching speak of membership only. *)
Definition SELECT_MULTIPLE (params : list Py.bytes) (c : connection)
  : outcome (list fingerprint) :=
  match fingerprints c with
  | None => Raised OperationalError
  | Some fs => Returned (filter (fun r => existsb (bytes_eqb (hash r)) params) fs)
  end.

(** SELECT song_name, hex(file_sha1) FROM songs WHERE song_id = ?. *)
Definition SELECT_SONG (sid : Z) (c : connection)
  : outcome (list (string * string)) :=
  match songs c with
  | None => Raised OperationalError
  | Some ss =>
      if fits_int64 sid
      then Returned (map (fun s => (song_name s, hex (file_sha1 s)))
                         (filter (fun s => song_id s =? sid) ss))
      else Raised OverflowError
  end.

(** SELECT song_id, hex(file_sha1) FROM songs WHERE song_name = ?. *)
Definition SELECT_SONG_BY_NAME (name : string) (c : connection)
  : outcome (list (Z * string)) :=
  match songs c with
  | None => Raised OperationalError
  | Some ss =>
      Returned (map (fun s => (song_id s, hex (file_sha1 s)))
                    (filter (fun s => String.eqb (song_name s) name) ss))
  end.

(** UPDATE songs SET fingerprinted = 1 WHERE song_id = ?. *)
Definition UPDATE_SONG_FINGERPRINTED (sid : Z) : M unit := fun c =>
  match songs c with
  | None => (c, Raised OperationalError)
  | Some ss =>
      if fits_int64 sid
      then (with_songs
              (Some (map (fun s => if song_id s =? sid
                                   then mkSong (song_id s) (song_name s) 1 (file_sha1 s)
                                   else s) ss)) c,
            Returned tt)
      else (c, Raised OverflowError)
  end.

(** SELECT COUNT(DISTINCT song_id) FROM songs WHERE fingerprinted = 1. *)
Definition SELECT_UNIQUE_SONG_IDS (c : connection) : outcome Z :=
  match songs c with
  | None => Raised OperationalError
  | Some ss =>
      Returned (Z.of_nat (List.length (nodup Z.eq_dec
                  (map song_id (filter (fun s => fingerprinted s =? 1) ss)))))
  end.

(** SELECT COUNT( * ) FROM fingerprints. *)
Definition SELECT_NUM_FINGERPRINTS (c : connection) : outcome Z :=
  match fingerprints c with
  | None => Raised OperationalError
  | Some fs => Returned (Z.of_nat (List.length fs))
  end.

End Sql.

(* ================================================================= *)
(** ** class SQLiteDatabase *)

(** [sqlite3.connect(filename)]: the tables of the file, foreign keys off. *)
Definition connect (ss : option (list song)) (seq : Z)
    (fs : option (list fingerprint)) : connection :=
  mkConnection false ss seq fs.

(** [__init__]: connect, then PRAGMA foreign_keys = ON. *)
Definition __init__ (ss : option (list song)) (seq : Z)
    (fs : option (list fingerprint)) : connection :=
  let conn := connect ss seq fs in
  mkConnection true (songs conn) (sqlite_sequence conn) (fingerprints conn).

Definition setup : M unit :=
  Sql.CREATE_SONGS_TABLE ;;;
  Sql.CREATE_FINGERPRINTS_TABLE ;;;
  Sql.DELETE_UNFINGERPRINTED ;;;
  Sql.commit.

Definition empty : M unit :=
  Sql.DROP_FINGERPRINTS ;;;
  Sql.DROP_SONGS ;;;
  Sql.commit ;;;
  setup.

Definition insert_song (songname file_hash : string) : M Z :=
  match Py.fromhex file_hash with
  | None => raise ValueError
  | Some sha1 =>
      lastrowid <- Sql.INSERT_SONG songname sha1 ;;
      Sql.commit ;;;
      ret lastrowid
  end.

Definition insert (h : string) (sid : Z) (o : Z) : M unit :=
  match Py.fromhex h with
  | None => raise ValueError
  | Some b => Sql.INSERT_FINGERPRINT (mkFingerprint b sid o)
  end.

(** [[(bytes.fromhex(h), sid, o) for h, o in hashes]]. *)
Fixpoint rows_of (sid : Z) (hashes : list (string * Z)) : option (list fingerprint) :=
  match hashes with
  | [] => Some []
  | (h, o) :: hashes' =>
      match Py.fromhex h with
      | None => None
      | Some b =>
          match rows_of sid hashes' with
          | None => None
          | Some rows => Some (mkFingerprint b sid o :: rows)
          end
      end
  end.

Definition insert_hashes (sid : Z) (hashes : list (string * Z)) : M unit :=
  match rows_of sid hashes with
  | None => raise ValueError
  | Some rows =>
      Sql.INSERT_FINGERPRINT_many rows ;;;
      Sql.commit
  end.

(** The dict comprehension [{h.upper(): o for h, o in hashes}], item by
    item from the dict built so far. *)
Definition mapper_from (m : Py.dict) (hashes : list (string * Z)) : Py.dict :=
  fold_left (fun m ho => Py.dict_set (Py.upper (fst ho)) (snd ho) m) hashes m.

Definition mapper_of (hashes : list (string * Z)) : Py.dict :=
  mapper_from [] hashes.

(** [[bytes.fromhex(h) for h in chunk]]. *)
Fixpoint fromhex_all (chunk : list string) : option (list Py.bytes) :=
  match chunk with
  | [] => Some []
  | h :: chunk' =>
      match Py.fromhex h with
      | None => None
      | Some b =>
          match fromhex_all chunk' with
          | None => None
          | Some bs => Some (b :: bs)
          end
      end
  end.

(** A generator run to its end against one state of the connection: what it
    yielded, and whether it stopped by itself or by an exception. *)
Definition yielded : Type := list (Z * Z) * outcome unit.

(** [for h, sid, offset in cur: yield sid, offset - mapper[h.hex().upper()]]. *)
Fixpoint yield_rows (mapper : Py.dict) (rows : list fingerprint) : yielded :=
  match rows with
  | [] => ([], Returned tt)
  | r :: rows' =>
      match Py.dict_get (Py.upper (Py.hex (hash r))) mapper with
      | None => ([], Raised KeyError)
      | Some q =>
          let (out, res) := yield_rows mapper rows' in
          ((fp_song_id r, offset r - q) :: out, res)
      end
  end.

(** The body of the loop over chunks: one SELECT_MULTIPLE for the chunk. *)
Definition query_chunk (mapper : Py.dict) (chunk : list string) (c : connection)
  : yielded :=
  match fromhex_all chunk with
  | None => ([], Raised ValueError)
  | Some params =>
      match Sql.SELECT_MULTIPLE params c with
      | Raised e => ([], Raised e)
      | Returned rows => yield_rows mapper rows
      end
  end.

Fixpoint query_chunks (mapper : Py.dict) (chunks : list (list string))
    (c : connection) : yielded :=
  match chunks with
  | [] => ([], Returned tt)
  | chunk :: chunks' =>
      match query_chunk mapper chunk c with
      | (out, Raised e) => (out, Raised e)
      | (out, Returned _) =>
          let (out', res) := query_chunks mapper chunks' c in
          (out ++ out', res)
      end
  end.

Definition return_matches (hashes : list (string * Z)) (c : connection) : yielded :=
  let mapper := mapper_of hashes in
  let values := Py.keys mapper in
  query_chunks mapper (grouper values 999) c.

(** The reference for chunking: the same method with every hash of the
    batch in the IN list of one query. *)
Definition return_matches_unchunked (hashes : list (string * Z)) (c : connection)
  : yielded :=
  let mapper := mapper_of hashes in
  let values := Py.keys mapper in
  query_chunk mapper values c.

(** [cur.fetchone()]. *)
Definition fetchone {A} (rows : outcome (list A)) : outcome (option A) :=
  match rows with
  | Raised e => Raised e
  | Returned rs => Returned (hd_error rs)
  end.

Definition get_song_by_id (sid : Z) (c : connection) : outcome (option (string * string)) :=
  fetchone (Sql.SELECT_SONG sid c).

Definition get_song_by_name (name : string) (c : connection) : outcome (option (Z * string)) :=
  fetchone (Sql.SELECT_SONG_BY_NAME name c).

Definition set_song_fingerprinted (sid : Z) : M unit :=
  Sql.UPDATE_SONG_FINGERPRINTED sid ;;;
  Sql.commit.

Definition get_num_songs (c : connection) : outcome Z :=
  Sql.SELECT_UNIQUE_SONG_IDS c.

Definition get_num_fingerprints (c : connection) : outcome Z :=
  Sql.SELECT_NUM_FINGERPRINTS c.

(** Modelled from the spec: the deletion of one recording, for which the
    class has no method ("on recording deletion, all its fingerprints are
    deleted (cascade)").  It is DELETE FROM songs WHERE song_id = ? on the
    connection, answered by the engine as DELETE_UNFINGERPRINTED is: by the
    FOREIGN KEY of CREATE_FINGERPRINTS_TABLE, when the connection enforces
    foreign keys. *)
Definition delete_song (sid : Z) : M unit :=
  Sql.delete_songs_where (fun s => song_id s =? sid).

(* ================================================================= *)
(** ** Predicates the statements use *)

(** A string made of pairs of hexadecimal digits and nothing else: the
    form in which the fingerprinter hands hashes over. *)
Fixpoint hexdigits (s : string) : bool :=
  match s with
  | EmptyString => true
  | String c s' =>
      match s' with
      | EmptyString => false
      | String d s'' =>
          match Py.digit_value c, Py.digit_value d with
          | Some _, Some _ => hexdigits s''
          | _, _ => false
          end
      end
  end.

(** Every hash of a batch is an ASCII string. *)
Definition ascii_batch (hashes : list (string * Z)) : Prop :=
  forall h o, In (h, o) hashes -> Py.isascii h = true.

(** Every hash of a batch is such a string. *)
Definition hex_batch (hashes : list (string * Z)) : Prop :=
  forall h o, In (h, o) hashes -> hexdigits h = true.

(** [x] is the pair yielded for a stored row whose hash one of the strings
    of [chunk] denotes, with the offset the mapper holds for that row. *)
Definition match_of (mapper : Py.dict) (fs : list fingerprint)
    (chunk : list string) (x : Z * Z) : Prop :=
  exists r h q,
    In r fs /\ In h chunk /\ Py.fromhex h = Some (hash r)
    /\ Py.dict_get (Py.upper (Py.hex (hash r))) mapper = Some q
    /\ x = (fp_song_id r, offset r - q).

(** The fingerprints table after INSERT OR IGNORE of [rows], one by one,
    when no row fails. *)
Fixpoint absorb (fs rows : list fingerprint) : list fingerprint :=
  match rows with
  | [] => fs
  | r :: rows' =>
      absorb (if existsb (Sql.fingerprint_eqb r) fs then fs else fs ++ [r]) rows'
  end.

(** The rows of a table that may not exist yet. *)
Definition table {A} (t : option (list A)) : list A :=
  match t with
  | Some rows => rows
  | None => []
  end.

(** The tables after DELETE_UNFINGERPRINTED with foreign keys on. *)
Definition kept_songs (ss : list song) : list song :=
  filter (fun s => negb (fingerprinted s =? 0)) ss.

Definition kept_fingerprints (ss : list song) (fs : list fingerprint)
  : list fingerprint :=
  filter (fun f => negb (Sql.has_id
                           (map song_id (filter (fun s => fingerprinted s =? 0) ss))
                           (fp_song_id f))) fs.

(** The schema's FOREIGN KEY: every fingerprint row has its song row. *)
Definition referential_integrity (c : connection) : Prop :=
  forall fs f, fingerprints c = Some fs -> In f fs ->
    exists ss s, songs c = Some ss /\ In s ss /\ song_id s = fp_song_id f.

(** The schema's PRIMARY KEY and UNIQUE constraints. *)
Definition primary_key (ss : list song) : Prop := NoDup (map song_id ss).
Definition unique_sha1 (ss : list song) : Prop := NoDup (map file_sha1 ss).
Definition unique_fingerprints (fs : list fingerprint) : Prop := NoDup fs.

(** What UPDATE_SONG_FINGERPRINTED does to one row. *)
Definition mark (sid : Z) (s : song) : song :=
  if song_id s =? sid then mkSong (song_id s) (song_name s) 1 (file_sha1 s) else s.

(** A batch with every hash in upper case, and with every offset moved
    by [d]. *)
Definition upper_batch (hashes : list (string * Z)) : list (string * Z) :=
  map (fun ho => (Py.upper (fst ho), snd ho)) hashes.

Definition shift_batch (d : Z) (hashes : list (string * Z)) : list (string * Z) :=
  map (fun ho => (fst ho, snd ho + d)) hashes.

(** A dict with every value moved by [d]. *)
Definition shift_dict (d : Z) (m : Py.dict) : Py.dict :=
  map (fun kv => (fst kv, snd kv + d)) m.

(** Yielded pairs with every offset difference moved by [- d]. *)
Definition shift_yielded (d : Z) (y : yielded) : yielded :=
  (map (fun x => (fst x, snd x - d)) (fst y), snd y).

(** The row's hash is what one of the strings denotes. *)
Definition hash_in (chunk : list string) (r : fingerprint) : bool :=
  existsb (fun k => match Py.fromhex k with
                    | Some b => Sql.bytes_eqb (hash r) b
                    | None => false
                    end) chunk.

(** The pair yielded for a row whose key the mapper holds. *)
Definition pair_of (mapper : Py.dict) (r : fingerprint) : Z * Z :=
  (fp_song_id r,
   offset r - match Py.dict_get (Py.upper (Py.hex (hash r))) mapper with
              | Some q => q
              | None => 0
              end).

(** The argument lists of the [conn.execute] calls that the loop of
    [return_matches] makes, in order: [[bytes.fromhex(h) for h in chunk]]
    for one chunk after the other, until a chunk does not convert or its
    query or its rows raise. *)
Fixpoint executed (mapper : Py.dict) (chunks : list (list string))
    (c : connection) : list (list Py.bytes) :=
  match chunks with
  | [] => []
  | chunk :: chunks' =>
      match fromhex_all chunk with
      | None => []
      | Some params =>
          params :: match query_chunk mapper chunk c with
                    | (_, Returned _) => executed mapper chunks' c
                    | (_, Raised _) => []
                    end
      end
  end.

Definition return_matches_queries (hashes : list (string * Z)) (c : connection)
  : list (list Py.bytes) :=
  let mapper := mapper_of hashes in
  executed mapper (grouper (Py.keys mapper) 999) c.

(** The run of the generator when the queries have these argument lists:
    SELECT_MULTIPLE for each, the rows of each yielded through the mapper. *)
Fixpoint replay (mapper : Py.dict) (queries : list (list Py.bytes))
    (c : connection) : yielded :=
  match queries with
  | [] => ([], Returned tt)
  | params :: queries' =>
      match Sql.SELECT_MULTIPLE params c with
      | Raised e => ([], Raised e)
      | Returned rows =>
          match yield_rows mapper rows with
          | (out, Raised e) => (out, Raised e)
          | (out, Returned _) =>
              let (out', res) := replay mapper queries' c in
              (out ++ out', res)
          end
      end
  end.

(** The bytes a string denotes, for a string that denotes some. *)
Definition bytes_of (k : string) : Py.bytes :=
  match Py.fromhex k with
  | Some b => b
  | None => []
  end.

(** The three constraints together, on the tables that exist. *)
Definition schema_ok (c : connection) : Prop :=
  primary_key (table (songs c))
  /\ unique_sha1 (table (songs c))
  /\ unique_fingerprints (table (fingerprints c)).

(** A method keeps the constraints. *)
Definition keeps_schema {A} (m : M A) : Prop :=
  forall c, schema_ok c -> schema_ok (fst (m c)).

(** A method keeps foreign keys on and the FOREIGN KEY satisfied. *)
Definition preserves {A} (m : M A) : Prop :=
  forall c, foreign_keys c = true -> referential_integrity c ->
    foreign_keys (fst (m c)) = true /\ referential_integrity (fst (m c)).

(* ================================================================= *)
(** ** A small store

    Recording 1 ("A", fingerprinted) with fingerprints (AA, 10) and
    (BB, 20); recording 2 ("B", not fingerprinted) with (AA, 4). *)
Definition row_A : song := mkSong 1 "A" 1 [x0a; x0b].
Definition row_B : song := mkSong 2 "B" 0 [x0c; x0d].
Definition fp_A_aa : fingerprint := mkFingerprint [xaa] 1 10.
Definition fp_A_bb : fingerprint := mkFingerprint [xbb] 1 20.
Definition fp_B_aa : fingerprint := mkFingerprint [xaa] 2 4.

Definition store_A : connection :=
  __init__ (Some [row_A]) 1 (Some [fp_A_aa; fp_A_bb]).
Definition store_AB : connection :=
  __init__ (Some [row_A; row_B]) 2 (Some [fp_A_aa; fp_A_bb; fp_B_aa]).

(** [store_A] after [insert_song "B" "0c0d"]. *)
Definition store_A_then_B : connection :=
  __init__ (Some [row_A; row_B]) 2 (Some [fp_A_aa; fp_A_bb]).





(* ================================================================= *)
(** ** Facts about the builtins *)

Section PyFacts.

Lemma string_pair_ind (P : string -> Prop) :
  P EmptyString ->
  (forall c, P (String c EmptyString)) ->
  (forall c d s, P s -> P (String c (String d s))) ->
  forall s, P s.
Proof.
  intros H0 H1 H2 s.
  assert (H : P s /\ forall c, P (String c s)).
  { induction s as [|d s [IH1 IH2]]; split; auto. }
  apply H.
Qed.

Lemma upper_char_idem c : Py.upper_char (Py.upper_char c) = Py.upper_char c.
Proof. destruct c as [[] [] [] [] [] [] [] []]; reflexivity. Qed.

Lemma upper_idem s : Py.upper (Py.upper s) = Py.upper s.
Proof.
  induction s as [|c s IH]; simpl; [reflexivity|].
  now rewrite upper_char_idem, IH.
Qed.

Lemma digit_value_upper c : Py.digit_value (Py.upper_char c) = Py.digit_value c.
Proof. destruct c as [[] [] [] [] [] [] [] []]; reflexivity. Qed.

Lemma isspace_upper c : Py.isspace (Py.upper_char c) = Py.isspace c.
Proof. destruct c as [[] [] [] [] [] [] [] []]; reflexivity. Qed.

Lemma digit_not_space c v : Py.digit_value c = Some v -> Py.isspace c = false.
Proof.
  destruct c as [[] [] [] [] [] [] [] []]; cbv; intros H;
    try discriminate; reflexivity.
Qed.

(** Upper-casing a string does not change the bytes it denotes. *)
Lemma fromhex_upper s : Py.fromhex (Py.upper s) = Py.fromhex s.
Proof.
  assert (H : Py.fromhex (Py.upper s) = Py.fromhex s
              /\ forall c, Py.fromhex (Py.upper (String c s)) = Py.fromhex (String c s)).
  { induction s as [|d s [IH1 IH2]].
    - split; [reflexivity|]. intros c. simpl. rewrite isspace_upper.
      reflexivity.
    - split; [apply IH2|]. intros c.
      change (Py.upper (String c (String d s)))
        with (String (Py.upper_char c) (String (Py.upper_char d) (Py.upper s))).
      cbn [Py.fromhex]. rewrite !isspace_upper, !digit_value_upper.
      destruct (Py.isspace c).
      + specialize (IH2 d). cbn [Py.upper Py.fromhex] in IH2.
        rewrite isspace_upper, digit_value_upper in IH2. exact IH2.
      + rewrite IH1. reflexivity. }
  apply H.
Qed.

Lemma hexdigits_upper s : hexdigits (Py.upper s) = hexdigits s.
Proof.
  induction s as [| c | c d s IH] using string_pair_ind; try reflexivity.
  cbn [Py.upper hexdigits]. now rewrite !digit_value_upper, IH.
Qed.

Lemma digit_value_lt c v : Py.digit_value c = Some v -> (v < 16)%N.
Proof.
  destruct c as [[] [] [] [] [] [] [] []]; intros H; cbv in H;
    try discriminate; injection H as <-; reflexivity.
Qed.

Lemma upper_lower_digit c v :
  Py.digit_value c = Some v -> Py.upper_char (Py.lower_digit v) = Py.upper_char c.
Proof.
  destruct c as [[] [] [] [] [] [] [] []]; intros H; cbv in H;
    try discriminate; injection H as <-; reflexivity.
Qed.

Lemma to_N_byte_of_nibbles hi lo :
  (hi < 16)%N -> (lo < 16)%N -> Byte.to_N (Py.byte_of_nibbles hi lo) = (16 * hi + lo)%N.
Proof.
  intros Hhi Hlo. unfold Py.byte_of_nibbles.
  destruct (Byte.of_N (16 * hi + lo)) as [b|] eqn:E.
  - now apply Byte.to_of_N.
  - apply Byte.of_N_None_iff in E. lia.
Qed.

(** On pairs of digits, [fromhex] succeeds and [hex] gives the digits
    back, up to case. *)
Lemma fromhex_hexdigits s :
  hexdigits s = true ->
  exists b, Py.fromhex s = Some b /\ Py.upper (Py.hex b) = Py.upper s.
Proof.
  induction s as [| c | c d s IH] using string_pair_ind; intros H.
  - exists []. split; reflexivity.
  - discriminate.
  - cbn [hexdigits] in H.
    destruct (Py.digit_value c) as [hi|] eqn:Ec; [|discriminate].
    destruct (Py.digit_value d) as [lo|] eqn:Ed; [|discriminate].
    destruct (IH H) as (b & Hb & Hu).
    exists (Py.byte_of_nibbles hi lo :: b). split.
    + cbn [Py.fromhex]. rewrite (digit_not_space _ _ Ec), Ec, Ed, Hb. reflexivity.
    + cbn [Py.hex Py.upper].
      pose proof (digit_value_lt _ _ Ec) as Hhi.
      pose proof (digit_value_lt _ _ Ed) as Hlo.
      rewrite (to_N_byte_of_nibbles _ _ Hhi Hlo).
      replace ((16 * hi + lo) / 16)%N with hi
        by (apply N.div_unique with lo; lia).
      replace ((16 * hi + lo) mod 16)%N with lo
        by (apply N.mod_unique with hi; lia).
      rewrite (upper_lower_digit _ _ Ec), (upper_lower_digit _ _ Ed), Hu.
      reflexivity.
Qed.

Lemma hexdigits_truthy s : hexdigits s = true -> s <> EmptyString -> Py.truthy s = true.
Proof. destruct s; [congruence | reflexivity]. Qed.

(** SQL [hex] is Python's [hex] in upper case. *)
Lemma sql_hex_upper b : Sql.hex b = Py.upper (Py.hex b).
Proof.
  induction b as [|x b IH]; [reflexivity|].
  cbn [Sql.hex Py.hex Py.upper]. rewrite IH. f_equal; [|f_equal].
  - destruct x; reflexivity.
  - destruct x; reflexivity.
Qed.

Lemma bytes_eqb_eq a b : Sql.bytes_eqb a b = true <-> a = b.
Proof.
  revert b. induction a as [|x a IH]; intros [|y b]; simpl; split;
    try congruence; try reflexivity.
  - intros H. apply andb_true_iff in H as [Hx Hab].
    apply Byte.byte_dec_bl in Hx. apply IH in Hab. congruence.
  - intros H. injection H as -> ->. apply andb_true_iff. split.
    + now apply Byte.byte_dec_lb.
    + now apply IH.
Qed.

Lemma fingerprint_eqb_eq r r' : Sql.fingerprint_eqb r r' = true <-> r = r'.
Proof.
  unfold Sql.fingerprint_eqb. rewrite !andb_true_iff, bytes_eqb_eq, !Z.eqb_eq.
  destruct r, r'; simpl. split.
  - intros [[-> ->] ->]. reflexivity.
  - intros H. injection H as -> -> ->. auto.
Qed.

End PyFacts.

Section DictFacts.

Lemma dict_get_set_same k v d : Py.dict_get k (Py.dict_set k v d) = Some v.
Proof.
  induction d as [|[k' v'] d IH]; simpl.
  - now rewrite String.eqb_refl.
  - destruct (String.eqb k' k) eqn:E; simpl; rewrite E; auto.
Qed.

Lemma dict_get_set_other k k' v d :
  k <> k' -> Py.dict_get k' (Py.dict_set k v d) = Py.dict_get k' d.
Proof.
  intros Hne. induction d as [|[k0 v0] d IH]; simpl.
  - destruct (String.eqb k k') eqn:E; [apply String.eqb_eq in E; congruence | reflexivity].
  - destruct (String.eqb k0 k) eqn:E; simpl.
    + apply String.eqb_eq in E. subst k0.
      destruct (String.eqb k k') eqn:E'; [apply String.eqb_eq in E'; congruence | reflexivity].
    + now rewrite IH.
Qed.

Lemma keys_set k v d k' :
  In k' (Py.keys (Py.dict_set k v d)) <-> k' = k \/ In k' (Py.keys d).
Proof.
  induction d as [|[k0 v0] d IH]; simpl.
  - intuition.
  - destruct (String.eqb k0 k) eqn:E; simpl.
    + apply String.eqb_eq in E. subst. intuition.
    + rewrite IH. intuition.
Qed.

Lemma keys_set_NoDup k v d : NoDup (Py.keys d) -> NoDup (Py.keys (Py.dict_set k v d)).
Proof.
  induction d as [|[k0 v0] d IH]; simpl; intros H.
  - constructor; [intros []| constructor].
  - inversion H as [|? ? Hnin Hnd]; subst.
    destruct (String.eqb k0 k) eqn:E; simpl.
    + constructor; assumption.
    + constructor; [|auto].
      fold (Py.keys (Py.dict_set k v d)). rewrite keys_set. intros [->|Hin]; [|auto].
      rewrite String.eqb_refl in E. discriminate.
Qed.

Lemma dict_get_keys k d : In k (Py.keys d) <-> exists v, Py.dict_get k d = Some v.
Proof.
  induction d as [|[k0 v0] d IH]; simpl.
  - split; [intros [] | intros [v Hv]; discriminate].
  - destruct (String.eqb k0 k) eqn:E.
    + apply String.eqb_eq in E. split; eauto.
    + rewrite IH. split; [intros [->|H]; auto|auto].
      rewrite String.eqb_refl in E. discriminate.
Qed.

Lemma mapper_from_cons m h o hashes :
  mapper_from m ((h, o) :: hashes) = mapper_from (Py.dict_set (Py.upper h) o m) hashes.
Proof. reflexivity. Qed.

Lemma mapper_from_app m pre post :
  mapper_from m (pre ++ post) = mapper_from (mapper_from m pre) post.
Proof. apply fold_left_app. Qed.

Lemma mapper_from_keys hashes : forall m k,
  In k (Py.keys (mapper_from m hashes)) <->
  In k (Py.keys m) \/ exists h o, In (h, o) hashes /\ k = Py.upper h.
Proof.
  induction hashes as [|[h o] hashes IH]; intros m k.
  - simpl. split; [auto | intros [H | (h & o & [] & _)]; exact H].
  - rewrite mapper_from_cons, IH, keys_set. simpl. split.
    + intros [[-> | H] | (h' & o' & Hin & ->)]; eauto 6.
    + intros [H | (h' & o' & [Heq | Hin] & ->)]; eauto 6.
      injection Heq as <- <-. auto.
Qed.

Lemma mapper_from_NoDup hashes : forall m,
  NoDup (Py.keys m) -> NoDup (Py.keys (mapper_from m hashes)).
Proof.
  induction hashes as [|[h o] hashes IH]; intros m H; [exact H|].
  rewrite mapper_from_cons. apply IH, keys_set_NoDup, H.
Qed.

(** A key not met in the rest of the batch keeps its value. *)
Lemma mapper_from_untouched hashes : forall m k,
  (forall h o, In (h, o) hashes -> Py.upper h <> k) ->
  Py.dict_get k (mapper_from m hashes) = Py.dict_get k m.
Proof.
  induction hashes as [|[h o] hashes IH]; intros m k H; [reflexivity|].
  rewrite mapper_from_cons, IH.
  - apply dict_get_set_other. apply (H h o). now left.
  - intros h' o' Hin. apply (H h' o'). now right.
Qed.

(** The value of a key is the offset of its last occurrence. *)
Lemma mapper_of_last pre h q post :
  (forall h' o', In (h', o') post -> Py.upper h' <> Py.upper h) ->
  Py.dict_get (Py.upper h) (mapper_of (pre ++ (h, q) :: post)) = Some q.
Proof.
  intros H. unfold mapper_of. rewrite mapper_from_app, mapper_from_cons.
  rewrite (mapper_from_untouched post _ _ H). apply dict_get_set_same.
Qed.

Lemma mapper_from_get hashes : forall m k q,
  Py.dict_get k (mapper_from m hashes) = Some q ->
  (Py.dict_get k m = Some q /\ forall h o, In (h, o) hashes -> Py.upper h <> k)
  \/ exists pre h post,
       hashes = pre ++ (h, q) :: post /\ Py.upper h = k
       /\ forall h' o', In (h', o') post -> Py.upper h' <> k.
Proof.
  induction hashes as [|[h o] hashes IH]; intros m k q H.
  - left. split; [exact H | intros ? ? []].
  - rewrite mapper_from_cons in H.
    apply IH in H as [[Hget Hno] | (pre & h' & post & -> & Hk & Hpost)].
    + destruct (string_dec (Py.upper h) k) as [E|E].
      * right. exists [], h, hashes. subst k.
        rewrite dict_get_set_same in Hget. injection Hget as ->. auto.
      * left. rewrite dict_get_set_other in Hget by exact E. split; [exact Hget|].
        intros h' o' [Heq|Hin]; [injection Heq as <- <-; exact E | eauto].
    + right. exists ((h, o) :: pre), h', post. auto.
Qed.

Lemma mapper_of_get hashes k q :
  Py.dict_get k (mapper_of hashes) = Some q ->
  exists pre h post,
    hashes = pre ++ (h, q) :: post /\ Py.upper h = k
    /\ forall h' o', In (h', o') post -> Py.upper h' <> k.
Proof.
  intros H. apply (mapper_from_get hashes []) in H as [[Hget _] | H];
    [discriminate | exact H].
Qed.

Lemma mapper_of_keys hashes k :
  In k (Py.keys (mapper_of hashes)) <-> exists h o, In (h, o) hashes /\ k = Py.upper h.
Proof.
  unfold mapper_of. rewrite (mapper_from_keys hashes []). simpl. tauto.
Qed.

Lemma mapper_of_NoDup hashes : NoDup (Py.keys (mapper_of hashes)).
Proof. apply (mapper_from_NoDup hashes []). constructor. Qed.

End DictFacts.

Section GrouperFacts.

Lemma keep_truthy_app a b : keep_truthy (a ++ b) = keep_truthy a ++ keep_truthy b.
Proof. apply flat_map_app. Qed.

Lemma keep_truthy_fill k : keep_truthy (repeat None k) = [].
Proof. induction k; simpl; auto. Qed.

Lemma keep_truthy_length t : (List.length (keep_truthy t) <= List.length t)%nat.
Proof.
  induction t as [|[v|] t IH]; simpl; [lia | | lia].
  destruct (Py.truthy v); simpl; lia.
Qed.

(** The chunks, put end to end, are the truthy items in order. *)
Lemma zip_longest_from_concat n l : forall k acc,
  (1 <= n)%nat -> (1 <= k)%nat ->
  List.concat (map keep_truthy (Py.zip_longest_from n k acc l))
  = keep_truthy (rev acc) ++ filter Py.truthy l.
Proof.
  induction l as [|x l IH]; intros k acc Hn Hk.
  - destruct acc as [|a acc]; [reflexivity|].
    cbn [Py.zip_longest_from map List.concat].
    now rewrite keep_truthy_app, keep_truthy_fill, !app_nil_r.
  - destruct k as [|[|k]]; [lia | |].
    + cbn [Py.zip_longest_from map List.concat]. rewrite IH by assumption.
      cbn [rev]. rewrite keep_truthy_app. cbn.
      destruct (Py.truthy x); cbn; now rewrite <- ?app_assoc, ?app_nil_r.
    + cbn [Py.zip_longest_from]. rewrite IH by lia.
      cbn [rev]. rewrite keep_truthy_app. cbn.
      destruct (Py.truthy x); cbn; now rewrite <- ?app_assoc, ?app_nil_r.
Qed.

Lemma grouper_concat l n :
  (1 <= n)%nat -> List.concat (grouper l n) = filter Py.truthy l.
Proof.
  intros Hn. unfold grouper, Py.zip_longest_shared.
  now rewrite zip_longest_from_concat.
Qed.

(** Every tuple of [zip_longest] has [n] slots. *)
Lemma zip_longest_from_length {A} n (l : list A) : forall k acc,
  (List.length acc + k = n)%nat ->
  Forall (fun t => List.length t = n) (Py.zip_longest_from n k acc l).
Proof.
  induction l as [|x l IH]; intros k acc H.
  - destruct acc as [|a acc]; constructor; [|constructor].
    rewrite length_app, length_rev, repeat_length. exact H.
  - destruct k as [|[|k]]; cbn [Py.zip_longest_from].
    + constructor.
    + constructor.
      * rewrite length_rev. simpl in *. lia.
      * apply IH. simpl. reflexivity.
    + apply IH. simpl in *. lia.
Qed.

Lemma grouper_length l n :
  Forall (fun chunk => (List.length chunk <= n)%nat) (grouper l n).
Proof.
  unfold grouper, Py.zip_longest_shared. apply Forall_map.
  eapply Forall_impl; [|apply (zip_longest_from_length n l n []); reflexivity].
  intros t Ht. simpl in Ht. rewrite <- Ht. apply keep_truthy_length.
Qed.

Lemma grouper_In l n h :
  (1 <= n)%nat ->
  (exists chunk, In chunk (grouper l n) /\ In h chunk) <-> In h l /\ Py.truthy h = true.
Proof.
  intros Hn. rewrite <- filter_In, <- (grouper_concat l n Hn), in_concat.
  split; intros (chunk & H1 & H2); eauto.
Qed.

End GrouperFacts.

Section MatchFacts.

Variable mapper : Py.dict.

Lemma yield_rows_sound rows x :
  In x (fst (yield_rows mapper rows)) ->
  exists r q, In r rows
    /\ Py.dict_get (Py.upper (Py.hex (hash r))) mapper = Some q
    /\ x = (fp_song_id r, offset r - q).
Proof.
  induction rows as [|r rows IH]; simpl; [intros []|].
  destruct (Py.dict_get _ mapper) as [q|] eqn:E; [|intros []].
  destruct (yield_rows mapper rows) as [out res]. simpl in *.
  intros [<- | H]; [exists r, q; auto|].
  destruct (IH H) as (r' & q' & ? & ? & ?). exists r', q'. auto.
Qed.

Lemma yield_rows_complete rows :
  (forall r, In r rows -> exists q, Py.dict_get (Py.upper (Py.hex (hash r))) mapper = Some q) ->
  snd (yield_rows mapper rows) = Returned tt
  /\ forall r q, In r rows ->
       Py.dict_get (Py.upper (Py.hex (hash r))) mapper = Some q ->
       In (fp_song_id r, offset r - q) (fst (yield_rows mapper rows)).
Proof.
  induction rows as [|r rows IH]; intros H; simpl.
  - split; [reflexivity | intros ? ? []].
  - destruct (H r (or_introl eq_refl)) as [q0 E]. rewrite E.
    destruct IH as [IH1 IH2]; [intros; apply H; now right|].
    destruct (yield_rows mapper rows) as [out res]. simpl in *. split; [exact IH1|].
    intros r' q' [<- | Hin] Hq.
    + left. congruence.
    + right. now apply IH2.
Qed.

Lemma fromhex_all_In chunk : forall params,
  fromhex_all chunk = Some params ->
  forall b, In b params <-> exists h, In h chunk /\ Py.fromhex h = Some b.
Proof.
  induction chunk as [|h chunk IH]; simpl; intros params H b.
  - injection H as <-. split; [intros [] | intros (? & [] & _)].
  - destruct (Py.fromhex h) as [b0|] eqn:E; [|discriminate].
    destruct (fromhex_all chunk) as [bs|]; [|discriminate].
    injection H as <-. simpl. rewrite (IH bs eq_refl b). split.
    + intros [<- | (h' & ? & ?)]; eauto.
    + intros (h' & [<- | ?] & ?); [left; congruence | eauto].
Qed.

Lemma fromhex_all_hexdigits chunk :
  (forall h, In h chunk -> hexdigits h = true) ->
  exists params, fromhex_all chunk = Some params.
Proof.
  induction chunk as [|h chunk IH]; simpl; intros H; [eauto|].
  destruct (fromhex_hexdigits h) as (b & -> & _); [auto|].
  destruct IH as [params ->]; eauto.
Qed.

Lemma query_chunk_sound chunk c x :
  In x (fst (query_chunk mapper chunk c)) ->
  exists fs r q h,
    fingerprints c = Some fs /\ In r fs /\ In h chunk
    /\ Py.fromhex h = Some (hash r)
    /\ Py.dict_get (Py.upper (Py.hex (hash r))) mapper = Some q
    /\ x = (fp_song_id r, offset r - q).
Proof.
  unfold query_chunk, Sql.SELECT_MULTIPLE.
  destruct (fromhex_all chunk) as [params|] eqn:Ep; [|intros []].
  destruct (fingerprints c) as [fs|]; [|intros []].
  intros H. apply yield_rows_sound in H as (r & q & Hr & Hq & ->).
  apply filter_In in Hr as [Hr Hex].
  apply existsb_exists in Hex as (b & Hb & Heq).
  apply bytes_eqb_eq in Heq. subst b.
  apply (fromhex_all_In _ _ Ep) in Hb as (h & Hh & Hfh).
  exists fs, r, q, h. auto 10.
Qed.

(** A chunk of keys of the mapper that are pairs of upper-case digits is
    answered without an exception, with every match. *)
Lemma query_chunk_complete chunk c fs :
  fingerprints c = Some fs ->
  (forall h, In h chunk ->
     hexdigits h = true /\ Py.upper h = h /\ In h (Py.keys mapper)) ->
  snd (query_chunk mapper chunk c) = Returned tt
  /\ forall r h q, In r fs -> In h chunk -> Py.fromhex h = Some (hash r) ->
       Py.dict_get h mapper = Some q ->
       In (fp_song_id r, offset r - q) (fst (query_chunk mapper chunk c)).
Proof.
  intros Hfs Hchunk. unfold query_chunk, Sql.SELECT_MULTIPLE. rewrite Hfs.
  destruct (fromhex_all_hexdigits chunk) as [params Ep]; [intros; now apply Hchunk|].
  rewrite Ep.
  assert (Hkey : forall r h, In h chunk -> Py.fromhex h = Some (hash r) ->
                   Py.upper (Py.hex (hash r)) = h).
  { intros r h Hh Hfh. destruct (Hchunk h Hh) as (Hd & Hu & _).
    destruct (fromhex_hexdigits h Hd) as (b & Hb & Hub). congruence. }
  destruct (yield_rows_complete
              (filter (fun r => existsb (Sql.bytes_eqb (hash r)) params) fs)) as [H1 H2].
  { intros r Hr. apply filter_In in Hr as [_ Hex].
    apply existsb_exists in Hex as (b & Hb & Heq).
    apply bytes_eqb_eq in Heq. subst b.
    apply (fromhex_all_In _ _ Ep) in Hb as (h & Hh & Hfh).
    rewrite (Hkey r h Hh Hfh). apply dict_get_keys. now apply Hchunk. }
  split; [exact H1|].
  intros r h q Hr Hh Hfh Hq. apply H2.
  - apply filter_In. split; [exact Hr|]. apply existsb_exists.
    exists (hash r). split; [|now apply bytes_eqb_eq].
    apply (fromhex_all_In _ _ Ep). eauto.
  - now rewrite (Hkey r h Hh Hfh).
Qed.

Lemma query_chunks_sound chunks c x :
  In x (fst (query_chunks mapper chunks c)) ->
  exists chunk, In chunk chunks /\ In x (fst (query_chunk mapper chunk c)).
Proof.
  induction chunks as [|chunk chunks IH]; simpl; [intros []|].
  destruct (query_chunk mapper chunk c) as [out [[]|e]] eqn:E.
  - destruct (query_chunks mapper chunks c) as [out' res]. simpl in *.
    intros H. apply in_app_or in H as [H|H].
    + exists chunk. rewrite E. auto.
    + destruct (IH H) as (ch & ? & ?). eauto.
  - simpl. intros H. exists chunk. rewrite E. auto.
Qed.

Lemma query_chunks_complete chunks c :
  (forall chunk, In chunk chunks -> snd (query_chunk mapper chunk c) = Returned tt) ->
  snd (query_chunks mapper chunks c) = Returned tt
  /\ forall chunk x, In chunk chunks -> In x (fst (query_chunk mapper chunk c)) ->
       In x (fst (query_chunks mapper chunks c)).
Proof.
  induction chunks as [|chunk chunks IH]; intros H; simpl.
  - split; [reflexivity | intros ? ? []].
  - pose proof (H chunk (or_introl eq_refl)) as Hc.
    destruct IH as [IH1 IH2]; [intros; apply H; now right|].
    destruct (query_chunk mapper chunk c) as [out [[]|e]] eqn:E; [|discriminate].
    destruct (query_chunks mapper chunks c) as [out' res]. simpl in *.
    split; [exact IH1|].
    intros ch x [<- | Hin] Hx; apply in_or_app.
    + left. now rewrite E in Hx.
    + right. eauto.
Qed.

Lemma yield_rows_returned rows :
  snd (yield_rows mapper rows) = Returned tt ->
  forall r, In r rows ->
    exists q, Py.dict_get (Py.upper (Py.hex (hash r))) mapper = Some q.
Proof.
  induction rows as [|r rows IH]; simpl; [intros _ ? []|].
  destruct (Py.dict_get _ mapper) as [q|] eqn:E; [|discriminate].
  destruct (yield_rows mapper rows) as [out res]. simpl in *.
  intros Hres r' [<- | Hin]; eauto.
Qed.



(** What one query that ends without an exception yields. *)
Lemma query_chunk_In chunk c fs x :
  snd (query_chunk mapper chunk c) = Returned tt ->
  fingerprints c = Some fs ->
  In x (fst (query_chunk mapper chunk c)) <-> match_of mapper fs chunk x.
Proof.
  intros Hres Hfs. split.
  - intros Hx.
    apply query_chunk_sound in Hx as (fs' & r & q & h & Hfs' & Hr & Hh & Hfh & Hq & ->).
    assert (fs' = fs) by congruence. subst fs'. exists r, h, q. auto.
  - intros (r & h & q & Hr & Hh & Hfh & Hq & ->).
    revert Hres. unfold query_chunk, Sql.SELECT_MULTIPLE. rewrite Hfs.
    destruct (fromhex_all chunk) as [params|] eqn:Ep; [|discriminate].
    intros Hres.
    destruct (yield_rows_complete _ (yield_rows_returned _ Hres)) as [_ H2].
    apply H2; [|exact Hq].
    apply filter_In. split; [exact Hr|]. apply existsb_exists.
    exists (hash r). split; [|now apply bytes_eqb_eq].
    apply (fromhex_all_In _ _ Ep). eauto.
Qed.

Lemma query_chunks_returned chunks c :
  snd (query_chunks mapper chunks c) = Returned tt ->
  forall chunk, In chunk chunks -> snd (query_chunk mapper chunk c) = Returned tt.
Proof.
  induction chunks as [|chunk chunks IH]; simpl; [intros _ ? []|].
  destruct (query_chunk mapper chunk c) as [out [[]|e]] eqn:E; [|discriminate].
  destruct (query_chunks mapper chunks c) as [out' res]. simpl in *.
  intros Hres ch [<- | Hin]; [now rewrite E | auto].
Qed.


End MatchFacts.

(** The keys of the mapper of a batch of digit pairs. *)
Lemma hex_batch_keys hashes k :
  hex_batch hashes -> In k (Py.keys (mapper_of hashes)) ->
  hexdigits k = true /\ Py.upper k = k /\ In k (Py.keys (mapper_of hashes)).
Proof.
  intros Hb Hk. pose proof Hk as Hk'.
  apply mapper_of_keys in Hk as (h & o & Hin & ->).
  rewrite hexdigits_upper, upper_idem. eauto.
Qed.

(* ================================================================= *)
(** ** Matching *)

Section Matching.

Variable hashes : list (string * Z).
Variable c : connection.

(** What a batch of digit pairs yields, chunked. *)
Lemma return_matches_hex fs :
  hex_batch hashes -> fingerprints c = Some fs ->
  snd (return_matches hashes c) = Returned tt
  /\ forall x, In x (fst (return_matches hashes c)) <->
       exists r h q, In r fs /\ In h (Py.keys (mapper_of hashes)) /\ Py.truthy h = true
         /\ Py.fromhex h = Some (hash r)
         /\ Py.dict_get h (mapper_of hashes) = Some q
         /\ x = (fp_song_id r, offset r - q).
Proof.
  intros Hb Hfs. unfold return_matches.
  set (mapper := mapper_of hashes). set (chunks := grouper (Py.keys mapper) 999).
  assert (Hgood : forall chunk, In chunk chunks -> forall h, In h chunk ->
            hexdigits h = true /\ Py.upper h = h /\ In h (Py.keys mapper)).
  { intros chunk Hc h Hh. apply hex_batch_keys; [exact Hb|].
    apply (grouper_In (Py.keys mapper) 999 h); [lia | eauto]. }
  destruct (query_chunks_complete mapper chunks c) as [H1 H2].
  { intros chunk Hc. now apply (query_chunk_complete mapper chunk c fs Hfs), Hgood. }
  split; [exact H1|]. intros x. split.
  - intros Hx. apply query_chunks_sound in Hx as (chunk & Hc & Hx).
    apply query_chunk_sound in Hx as (fs' & r & q & h & Hfs' & Hr & Hh & Hfh & Hq & ->).
    assert (fs' = fs) by congruence. subst fs'.
    destruct (Hgood chunk Hc h Hh) as (Hd & Hu & Hk).
    destruct (fromhex_hexdigits h Hd) as (b & Hfb & Hub).
    assert (Py.upper (Py.hex (hash r)) = h) as Hkey by congruence.
    rewrite Hkey in Hq. exists r, h, q. repeat split; auto.
    apply (grouper_In (Py.keys mapper) 999 h); [lia | eauto].
  - intros (r & h & q & Hr & Hk & Ht & Hfh & Hq & ->).
    destruct (proj2 (grouper_In (Py.keys mapper) 999 h ltac:(lia)) (conj Hk Ht))
      as (chunk & Hc & Hh).
    apply (H2 chunk); [exact Hc|].
    apply (query_chunk_complete mapper chunk c fs Hfs (Hgood chunk Hc)) with (h := h); auto.
Qed.

(** What a batch of digit pairs yields from one query for all of it. *)
Lemma return_matches_unchunked_hex fs :
  hex_batch hashes -> fingerprints c = Some fs ->
  snd (return_matches_unchunked hashes c) = Returned tt
  /\ forall x, In x (fst (return_matches_unchunked hashes c)) <->
       exists r h q, In r fs /\ In h (Py.keys (mapper_of hashes))
         /\ Py.fromhex h = Some (hash r)
         /\ Py.dict_get h (mapper_of hashes) = Some q
         /\ x = (fp_song_id r, offset r - q).
Proof.
  intros Hb Hfs. unfold return_matches_unchunked.
  set (mapper := mapper_of hashes).
  assert (Hgood : forall h, In h (Py.keys mapper) ->
            hexdigits h = true /\ Py.upper h = h /\ In h (Py.keys mapper)).
  { intros h Hh. now apply hex_batch_keys. }
  destruct (query_chunk_complete mapper (Py.keys mapper) c fs Hfs Hgood) as [H1 H2].
  split; [exact H1|]. intros x. split.
  - intros Hx.
    apply query_chunk_sound in Hx as (fs' & r & q & h & Hfs' & Hr & Hh & Hfh & Hq & ->).
    assert (fs' = fs) by congruence. subst fs'.
    destruct (Hgood h Hh) as (Hd & Hu & Hk).
    destruct (fromhex_hexdigits h Hd) as (b & Hfb & Hub).
    assert (Py.upper (Py.hex (hash r)) = h) as Hkey by congruence.
    rewrite Hkey in Hq. exists r, h, q. auto 10.
  - intros (r & h & q & Hr & Hk & Hfh & Hq & ->). now apply H2 with (h := h).
Qed.

(** What a run that ends without an exception yields. *)
Lemma return_matches_returned_In fs :
  snd (return_matches hashes c) = Returned tt ->
  fingerprints c = Some fs ->
  forall x, In x (fst (return_matches hashes c)) <->
    match_of (mapper_of hashes) fs (filter Py.truthy (Py.keys (mapper_of hashes))) x.
Proof.
  unfold return_matches. intros Hres Hfs x.
  set (mapper := mapper_of hashes) in *.
  pose proof (query_chunks_returned mapper _ c Hres) as Hall.
  split.
  - intros Hx. apply query_chunks_sound in Hx as (chunk & Hc & Hx).
    apply (query_chunk_In mapper chunk c fs x (Hall chunk Hc) Hfs) in Hx
      as (r & h & q & Hr & Hh & Hrest).
    exists r, h, q. split; [exact Hr|]. split; [|exact Hrest].
    apply filter_In, (grouper_In (Py.keys mapper) 999 h); [lia | eauto].
  - intros (r & h & q & Hr & Hh & Hrest).
    apply filter_In, (grouper_In (Py.keys mapper) 999 h) in Hh
      as (chunk & Hc & Hh); [|lia].
    apply (proj2 (query_chunks_complete mapper _ c Hall) chunk x Hc).
    apply (query_chunk_In mapper chunk c fs x (Hall chunk Hc) Hfs).
    exists r, h, q. auto.
Qed.


(** Whatever is yielded comes from a stored row and the mapper. *)
Lemma return_matches_sound x :
  In x (fst (return_matches hashes c)) ->
  exists fs r q,
    fingerprints c = Some fs /\ In r fs
    /\ Py.dict_get (Py.upper (Py.hex (hash r))) (mapper_of hashes) = Some q
    /\ x = (fp_song_id r, offset r - q).
Proof.
  intros Hx. apply query_chunks_sound in Hx as (chunk & Hc & Hx).
  apply query_chunk_sound in Hx as (fs & r & q & h & ? & ? & ? & ? & ? & ?).
  exists fs, r, q. auto.
Qed.

End Matching.

Lemma upper_truthy h : h <> EmptyString -> Py.truthy (Py.upper h) = true.
Proof. destruct h; [congruence | reflexivity]. Qed.

(** A filter that every row passes changes nothing. *)
Lemma filter_all {T} (keep : T -> bool) (rows : list T) :
  (forall r, In r rows -> keep r = true) -> filter keep rows = rows.
Proof.
  intros Hall. induction rows as [|r rows IH]; [reflexivity|].
  cbn [filter]. rewrite (Hall r (or_introl eq_refl)). f_equal.
  apply IH. intros r' Hr'. apply Hall. now right.
Qed.

Lemma keys_truthy hashes :
  (forall h o, In (h, o) hashes -> h <> EmptyString) ->
  forall k, In k (Py.keys (mapper_of hashes)) -> Py.truthy k = true.
Proof.
  intros Hne k Hk. apply mapper_of_keys in Hk as (h & o & Hin & ->).
  apply upper_truthy. eauto.
Qed.

(* ================================================================= *)
(** ** Properties of matching *)

(** The scenario of the design notes: recording A with fingerprints
    (AA, 10) and (BB, 20); the batch [(AA, 3); (CC, 5)] yields (A, 7) and
    nothing else. *)
Example return_matches_scenario :
  return_matches [("AA", 3); ("CC", 5)] store_A = ([(1, 7)], Returned tt).
Proof. reflexivity. Qed.

(** Five hashes in chunks of two. *)
Example grouper_five_by_two :
  grouper ["AA"; "BB"; "CC"; "DD"; "EE"] 2 = [["AA"; "BB"]; ["CC"; "DD"]; ["EE"]].
Proof. reflexivity. Qed.

(** [bytes.fromhex] skips white space, [bytes.hex] does not give it back:
    a query hash written with a space finds its row and then misses its
    own key in the mapper. *)
Example return_matches_whitespace :
  Py.fromhex "AA " = Some [xaa]
  /\ return_matches [("AA ", 3)] store_A = ([], Raised KeyError).
Proof. split; reflexivity. Qed.


(** C1, as stated, fails on a batch that repeats a hash: the stored
    fingerprint (AA, recording 1, offset 10) and the batch
    [("AA", 3); ("AA", 5)] yield (1, 5) only, not (1, 10 - 3). *)
Lemma match_completeness_counterexample :
  fingerprints store_A = Some [fp_A_aa; fp_A_bb]
  /\ In fp_A_aa [fp_A_aa; fp_A_bb]
  /\ Py.fromhex "AA" = Some (hash fp_A_aa)
  /\ In ("AA", 3) [("AA", 3); ("AA", 5)]
  /\ return_matches [("AA", 3); ("AA", 5)] store_A = ([(1, 5)], Returned tt)
  /\ ~ In (fp_song_id fp_A_aa, offset fp_A_aa - 3)
          (fst (return_matches [("AA", 3); ("AA", 5)] store_A)).
Proof.
  repeat split; try reflexivity; try (simpl; tauto).
  vm_compute. intros [H | []]. discriminate.
Qed.


(* ================================================================= *)
(** ** Facts about ingestion *)

Section IngestFacts.

Lemma existsb_fingerprint r fs :
  existsb (Sql.fingerprint_eqb r) fs = true <-> In r fs.
Proof.
  rewrite existsb_exists. split.
  - intros (r' & Hin & Heq). apply fingerprint_eqb_eq in Heq. now subst.
  - intros Hin. exists r. split; [exact Hin | now apply fingerprint_eqb_eq].
Qed.

Lemma has_id_In ids z : Sql.has_id ids z = true <-> In z ids.
Proof.
  unfold Sql.has_id. rewrite existsb_exists. split.
  - intros (z' & Hin & Heq). apply Z.eqb_eq in Heq. now subst.
  - intros Hin. exists z. split; [exact Hin | apply Z.eqb_refl].
Qed.

(** A step that raises leaves the connection as it was. *)
Lemma step_raised r c c' e :
  Sql.step_insert_fingerprint r c = (c', Raised e) -> c' = c.
Proof.
  unfold Sql.step_insert_fingerprint.
  destruct (negb _); [congruence|].
  destruct (fingerprints c) as [fs|]; [|congruence].
  destruct (existsb _ fs); [congruence|].
  destruct (_ && _); congruence.
Qed.

(** A step that returns has its row in the table afterwards, and changes
    nothing but the fingerprints table, to which it may add the row. *)
Lemma step_returned r c c' :
  Sql.step_insert_fingerprint r c = (c', Returned tt) ->
  Sql.fits_int64 (fp_song_id r) && Sql.fits_int64 (offset r) = true
  /\ exists fs, fingerprints c = Some fs
       /\ ((In r fs /\ c' = c)
           \/ (~ In r fs /\ c' = with_fingerprints (Some (fs ++ [r])) c)).
Proof.
  unfold Sql.step_insert_fingerprint.
  destruct (Sql.fits_int64 (fp_song_id r) && Sql.fits_int64 (offset r));
    simpl; [|congruence].
  destruct (fingerprints c) as [fs|]; [|congruence].
  destruct (existsb _ fs) eqn:E.
  - intros H. injection H as <-. split; [reflexivity|]. exists fs.
    split; [reflexivity|]. left. split; [now apply existsb_fingerprint | reflexivity].
  - destruct (_ && _); [congruence|]. intros H. injection H as <-.
    split; [reflexivity|]. exists fs. split; [reflexivity|]. right.
    split; [|reflexivity]. intros Hin. apply existsb_fingerprint in Hin. congruence.
Qed.

(** A row that is in the table and fits is skipped. *)
Lemma step_present r c fs :
  Sql.fits_int64 (fp_song_id r) && Sql.fits_int64 (offset r) = true ->
  fingerprints c = Some fs -> In r fs ->
  Sql.step_insert_fingerprint r c = (c, Returned tt).
Proof.
  intros Hfit Hfs Hin. unfold Sql.step_insert_fingerprint.
  rewrite Hfit, Hfs. simpl.
  now rewrite (proj2 (existsb_fingerprint r fs) Hin).
Qed.

(** Rows only accumulate, and nothing else moves. *)
Lemma step_all_grows rows : forall c c' res,
  Sql.step_all rows c = (c', res) ->
  (fingerprints c = None -> c' = c)
  /\ forall fs, fingerprints c = Some fs ->
       exists added, c' = with_fingerprints (Some (fs ++ added)) c.
Proof.
  induction rows as [|r rows IH]; intros c c' res H.
  - injection H as <- <-. split; [reflexivity|]. intros fs Hfs. exists [].
    rewrite app_nil_r. destruct c; simpl in *. now subst.
  - cbn [Sql.step_all] in H. unfold bind in H.
    destruct (Sql.step_insert_fingerprint r c) as [c1 [[]|e]] eqn:E.
    + apply step_returned in E as (_ & fs0 & Hfs0 & Hcase).
      apply IH in H as [_ H2]. split; [congruence|].
      intros fs Hfs. assert (fs0 = fs) by congruence. subst fs0.
      destruct Hcase as [[_ ->] | [_ ->]].
      * exact (H2 fs Hfs).
      * destruct (H2 (fs ++ [r]) eq_refl) as [added ->].
        exists (r :: added). unfold with_fingerprints. simpl.
        now rewrite <- app_assoc.
    + apply step_raised in E. injection H as <- <-. subst c1.
      split; [reflexivity|]. intros fs Hfs. exists [].
      rewrite app_nil_r. destruct c; simpl in *. now subst.
Qed.

(** Running the same rows again changes nothing and ends the same way. *)
Lemma step_all_again rows : forall c c' res,
  Sql.step_all rows c = (c', res) -> Sql.step_all rows c' = (c', res).
Proof.
  induction rows as [|r rows IH]; intros c c' res H.
  - injection H as <- <-. reflexivity.
  - cbn [Sql.step_all] in *. unfold bind in *.
    destruct (Sql.step_insert_fingerprint r c) as [c1 [[]|e]] eqn:E.
    + pose proof (step_returned _ _ _ E) as (Hfit & fs & Hfs & Hcase).
      assert (H1 : exists fs1, fingerprints c1 = Some fs1 /\ In r fs1).
      { destruct Hcase as [[Hin ->] | [_ ->]]; [eauto|].
        exists (fs ++ [r]). split; [reflexivity|]. apply in_or_app. right. now left. }
      destruct H1 as (fs1 & Hfs1 & Hin1).
      destruct (proj2 (step_all_grows _ _ _ _ H) fs1 Hfs1) as [added Hc'].
      rewrite (step_present r c' (fs1 ++ added) Hfit).
      * eauto.
      * rewrite Hc'. reflexivity.
      * apply in_or_app. now left.
    + pose proof (step_raised _ _ _ _ E). injection H as <- <-. subst c1.
      now rewrite E.
Qed.

Lemma prepare_insert_fingerprint_same c :
  fst (Sql.prepare_insert_fingerprint c) = c.
Proof.
  unfold Sql.prepare_insert_fingerprint.
  destruct (fingerprints c); [destruct (negb (foreign_keys c) || _)%bool|]; reflexivity.
Qed.

Lemma insert_many_again rows c :
  Sql.INSERT_FINGERPRINT_many rows (fst (Sql.INSERT_FINGERPRINT_many rows c))
  = Sql.INSERT_FINGERPRINT_many rows c.
Proof.
  unfold Sql.INSERT_FINGERPRINT_many, bind.
  destruct (Sql.prepare_insert_fingerprint c) as [c0 [[]|e]] eqn:Ep.
  - pose proof (prepare_insert_fingerprint_same c) as Hc0. rewrite Ep in Hc0.
    simpl in Hc0. subst c0.
    destruct (Sql.step_all rows c) as [c' res] eqn:Es. simpl.
    assert (Hp : Sql.prepare_insert_fingerprint c' = (c', Returned tt)).
    { destruct (step_all_grows _ _ _ _ Es) as [_ Hg].
      revert Ep. unfold Sql.prepare_insert_fingerprint.
      destruct (fingerprints c) as [fs|] eqn:Hfs; [|congruence].
      destruct (Hg fs eq_refl) as [added ->]. simpl.
      destruct (negb (foreign_keys c) || _)%bool; congruence. }
    rewrite Hp. exact (step_all_again _ _ _ _ Es).
  - pose proof (prepare_insert_fingerprint_same c) as Hc0. rewrite Ep in Hc0.
    simpl in *. subst c0. now rewrite Ep.
Qed.

(** Called again with the same arguments, [insert_hashes] leaves the
    connection as the first call left it and ends the same way. *)
Lemma insert_hashes_again sid hashes c :
  insert_hashes sid hashes (fst (insert_hashes sid hashes c))
  = insert_hashes sid hashes c.
Proof.
  unfold insert_hashes. destruct (rows_of sid hashes) as [rows|]; [|reflexivity].
  pose proof (insert_many_again rows c) as H.
  unfold bind.
  destruct (Sql.INSERT_FINGERPRINT_many rows c) as [c' [[]|e]];
    cbn [fst Sql.commit ret] in *; now rewrite H.
Qed.

Lemma absorb_In rows : forall fs f, In f (absorb fs rows) <-> In f fs \/ In f rows.
Proof.
  induction rows as [|r rows IH]; intros fs f; simpl; [tauto|].
  rewrite IH. destruct (existsb _ fs) eqn:E.
  - apply existsb_fingerprint in E. split; [tauto|].
    intros [H | [<- | H]]; auto.
  - rewrite in_app_iff. simpl. tauto.
Qed.

Lemma absorb_NoDup rows : forall fs, NoDup fs -> NoDup (absorb fs rows).
Proof.
  induction rows as [|r rows IH]; intros fs H; simpl; [exact H|].
  apply IH. destruct (existsb _ fs) eqn:E; [exact H|].
  apply NoDup_app; [exact H | repeat constructor; intros [] |].
  intros f Hf [<- | []]. apply existsb_fingerprint in Hf. congruence.
Qed.

Lemma absorb_prefix rows : forall fs, exists added, absorb fs rows = fs ++ added.
Proof.
  induction rows as [|r rows IH]; intros fs; simpl.
  - exists []. now rewrite app_nil_r.
  - destruct (existsb _ fs); [apply IH|].
    destruct (IH (fs ++ [r])) as [added ->]. exists (r :: added).
    now rewrite <- app_assoc.
Qed.

(** Rows that fit, for a recording that exists, are taken without error. *)
Lemma step_all_ok rows : forall c ss fs,
  songs c = Some ss -> fingerprints c = Some fs ->
  (forall r, In r rows ->
     Sql.fits_int64 (fp_song_id r) && Sql.fits_int64 (offset r) = true
     /\ In (fp_song_id r) (map song_id ss)) ->
  Sql.step_all rows c = (with_fingerprints (Some (absorb fs rows)) c, Returned tt).
Proof.
  induction rows as [|r rows IH]; intros c ss fs Hss Hfs Hrows.
  - simpl. unfold ret. destruct c; simpl in *. now subst.
  - cbn [Sql.step_all absorb]. unfold bind.
    destruct (Hrows r (or_introl eq_refl)) as [Hfit Hid].
    unfold Sql.step_insert_fingerprint at 1. rewrite Hfit, Hfs, Hss. simpl.
    destruct (existsb _ fs) eqn:E.
    + apply (IH c ss fs Hss Hfs). intros; apply Hrows; now right.
    + rewrite (proj2 (has_id_In _ _) Hid), andb_false_r.
      rewrite (IH (with_fingerprints (Some (fs ++ [r])) c) ss (fs ++ [r])); auto.
      intros; apply Hrows; now right.
Qed.

Lemma rows_of_In sid hashes : forall rows,
  rows_of sid hashes = Some rows ->
  forall r, In r rows <->
    fp_song_id r = sid /\ exists h, In (h, offset r) hashes /\ Py.fromhex h = Some (hash r).
Proof.
  induction hashes as [|[h o] hashes IH]; simpl; intros rows H r.
  - injection H as <-. split; [intros [] | intros (_ & ? & [] & _)].
  - destruct (Py.fromhex h) as [b|] eqn:E; [|discriminate].
    destruct (rows_of sid hashes) as [rows'|]; [|discriminate].
    injection H as <-. simpl. rewrite (IH rows' eq_refl r). split.
    + intros [<- | (Hs & h' & Hin & Hfh)]; simpl; eauto 6.
    + intros (Hs & h' & [Heq | Hin] & Hfh); [|eauto 6].
      left. injection Heq as <- ->. destruct r; simpl in *. congruence.
Qed.

End IngestFacts.

(** C3: idempotent ingestion.  A second [insert_hashes] with the same
    arguments leaves the connection, and so the fingerprint rows and their
    count, as the first call left them, and ends as the first did.  For a
    recording that exists and pairs that are hexadecimal and fit, the call
    raises nothing, and the table afterwards is the table before followed by
    the new rows, each once: a triple already stored, or repeated in the
    batch, adds no row. *)
Theorem idempotent_ingestion sid hashes c :
  insert_hashes sid hashes (fst (insert_hashes sid hashes c))
  = insert_hashes sid hashes c
  /\ get_num_fingerprints
       (fst (insert_hashes sid hashes (fst (insert_hashes sid hashes c))))
     = get_num_fingerprints (fst (insert_hashes sid hashes c))
  /\ (forall ss fs rows,
        songs c = Some ss -> fingerprints c = Some fs ->
        In sid (map song_id ss) ->
        rows_of sid hashes = Some rows ->
        Sql.fits_int64 sid = true ->
        (forall h o, In (h, o) hashes -> Sql.fits_int64 o = true) ->
        exists fs',
          insert_hashes sid hashes c = (with_fingerprints (Some fs') c, Returned tt)
          /\ (forall f, In f fs' <-> In f fs \/ In f rows)
          /\ (unique_fingerprints fs -> unique_fingerprints fs')
          /\ exists added, fs' = fs ++ added).
Proof.
  split; [apply insert_hashes_again|]. split; [now rewrite insert_hashes_again|].
  intros ss fs rows Hss Hfs Hsid Hrows Hfit Hfits.
  exists (absorb fs rows). split; [|split; [|split]].
  - unfold insert_hashes. rewrite Hrows.
    unfold Sql.INSERT_FINGERPRINT_many, bind, Sql.prepare_insert_fingerprint.
    rewrite Hfs, Hss, orb_true_r.
    rewrite (step_all_ok rows c ss fs Hss Hfs); [reflexivity|].
    intros r Hr. apply (rows_of_In sid hashes rows Hrows) in Hr
      as (Hs & h & Hin & _).
    rewrite Hs, Hfit, (Hfits h _ Hin). auto.
  - apply absorb_In.
  - apply absorb_NoDup.
  - apply absorb_prefix.
Qed.

Lemma idempotent_ingestion_witness :
  exists fs',
    insert_hashes 1 [("aa", 10); ("cc", 30); ("CC", 30)] store_A
      = (with_fingerprints (Some fs') store_A, Returned tt)
    /\ (forall f, In f fs' <->
          In f [fp_A_aa; fp_A_bb]
          \/ In f [fp_A_aa; mkFingerprint [xcc] 1 30; mkFingerprint [xcc] 1 30])
    /\ (unique_fingerprints [fp_A_aa; fp_A_bb] -> unique_fingerprints fs')
    /\ exists added, fs' = [fp_A_aa; fp_A_bb] ++ added.
Proof.
  apply (proj2 (proj2 (idempotent_ingestion 1 [("aa", 10); ("cc", 30); ("CC", 30)] store_A))
           [row_A]).
  - reflexivity.
  - reflexivity.
  - simpl; auto.
  - reflexivity.
  - reflexivity.
  - intros h o [H | [H | [H | []]]]; injection H as <- <-; reflexivity.
Defined.

(* ================================================================= *)
(** ** Facts about deletion *)

Section DeleteFacts.

Lemma map_injective_on {A B} (f : A -> B) (l : list A) a b :
  NoDup (map f l) -> In a l -> In b l -> f a = f b -> a = b.
Proof.
  induction l as [|x l IH]; simpl; [intros _ []|].
  intros Hnd Ha Hb Hab. inversion Hnd as [|? ? Hnin Hnd']; subst.
  destruct Ha as [-> | Ha], Hb as [-> | Hb]; auto.
  - exfalso. apply Hnin. rewrite Hab. now apply in_map.
  - exfalso. apply Hnin. rewrite <- Hab. now apply in_map.
Qed.

Lemma filter_filter_absorb {A} (p q : A -> bool) (l : list A) :
  (forall a, In a l -> p a = true -> q a = true) ->
  filter p (filter q l) = filter p l.
Proof.
  induction l as [|a l IH]; simpl; intros H; [reflexivity|].
  destruct (q a) eqn:Eq; simpl.
  - rewrite IH by auto. reflexivity.
  - destruct (p a) eqn:Ep; [|now apply IH; auto].
    rewrite (H a (or_introl eq_refl) Ep) in Eq. discriminate.
Qed.

(** The ids deleted with one recording are that recording's id. *)
Lemma has_id_deleted ss sid z :
  In sid (map song_id ss) ->
  Sql.has_id (map song_id (filter (fun s => song_id s =? sid) ss)) z = (z =? sid).
Proof.
  intros Hin. destruct (z =? sid) eqn:E.
  - apply Z.eqb_eq in E. subst z. apply has_id_In.
    apply in_map_iff in Hin as (s & Hs & Hin). apply in_map_iff.
    exists s. split; [exact Hs|]. apply filter_In. split; [exact Hin|].
    now apply Z.eqb_eq.
  - apply not_true_is_false. intros H. apply has_id_In in H.
    apply in_map_iff in H as (s & Hs & H). apply filter_In in H as [_ H].
    apply Z.eqb_eq in H. apply Z.eqb_neq in E. congruence.
Qed.

End DeleteFacts.

(* ================================================================= *)
(** ** Properties of setup *)

Section SetupFacts.

Lemma kept_songs_again ss : kept_songs (kept_songs ss) = kept_songs ss.
Proof.
  unfold kept_songs. apply filter_all. intros s Hs.
  now apply filter_In in Hs.
Qed.

Lemma purged_none ss : filter (fun s => fingerprinted s =? 0) (kept_songs ss) = [].
Proof.
  unfold kept_songs. induction ss as [|s ss IH]; simpl; [reflexivity|].
  destruct (fingerprinted s =? 0) eqn:E; simpl; [exact IH|].
  now rewrite E.
Qed.

Lemma kept_fingerprints_again ss fs :
  kept_fingerprints (kept_songs ss) (kept_fingerprints ss fs) = kept_fingerprints ss fs.
Proof.
  unfold kept_fingerprints at 1. rewrite purged_none. simpl.
  now apply filter_all.
Qed.

(** What [setup] does on a connection made by [__init__]. *)
Lemma setup_init ss seq fs :
  setup (__init__ ss seq fs)
  = (__init__ (Some (kept_songs (table ss)))
              (match ss with Some _ => seq | None => 0 end)
              (Some (kept_fingerprints (table ss) (table fs))),
     Returned tt).
Proof. destruct ss as [ss|], fs as [fs|]; reflexivity. Qed.

End SetupFacts.

(** C4: startup purge.  On a connection made by [__init__], whatever
    tables the file holds, [setup] raises nothing, and neither does a
    second [setup], which changes nothing more.  Afterwards no recording
    with fingerprinted = 0 is stored and no fingerprint references one that
    was; every recording with another value of the flag is stored as
    before, and its fingerprints are the ones it had, in place. *)
Theorem startup_purge ss seq fs :
  exists ss' seq' fs',
    setup (__init__ ss seq fs) = (__init__ (Some ss') seq' (Some fs'), Returned tt)
    /\ setup (__init__ (Some ss') seq' (Some fs'))
       = (__init__ (Some ss') seq' (Some fs'), Returned tt)
    /\ (forall s, In s ss' <-> In s (table ss) /\ fingerprinted s <> 0)
    /\ (forall s f, In s (table ss) -> fingerprinted s = 0 ->
          In f fs' -> fp_song_id f <> song_id s)
    /\ (forall f, In f fs' -> In f (table fs))
    /\ (primary_key (table ss) ->
        forall s, In s (table ss) -> fingerprinted s <> 0 ->
          filter (fun f => fp_song_id f =? song_id s) fs'
          = filter (fun f => fp_song_id f =? song_id s) (table fs)).
Proof.
  exists (kept_songs (table ss)), (match ss with Some _ => seq | None => 0 end),
         (kept_fingerprints (table ss) (table fs)).
  split; [apply setup_init|]. split; [|split; [|split; [|split]]].
  - rewrite setup_init. cbn [table].
    now rewrite kept_songs_again, kept_fingerprints_again.
  - intros s. unfold kept_songs. rewrite filter_In, negb_true_iff, Z.eqb_neq. tauto.
  - intros s f Hs Hz Hf Heq. apply filter_In in Hf as [_ Hf].
    apply negb_true_iff in Hf.
    assert (Sql.has_id (map song_id (filter (fun s => fingerprinted s =? 0) (table ss)))
                       (fp_song_id f) = true); [|congruence].
    apply has_id_In. rewrite Heq. apply in_map, filter_In. split; [exact Hs|].
    now apply Z.eqb_eq.
  - intros f Hf. now apply filter_In in Hf.
  - intros Hpk s Hs Hflag. apply filter_filter_absorb.
    intros f Hf Heq. apply Z.eqb_eq in Heq. apply negb_true_iff.
    apply not_true_is_false. intros Hgone. apply has_id_In in Hgone.
    apply in_map_iff in Hgone as (s0 & Hid & Hs0).
    apply filter_In in Hs0 as [Hs0 Hz]. apply Z.eqb_eq in Hz.
    assert (s0 = s); [|congruence].
    apply (map_injective_on song_id (table ss)); auto. congruence.
Qed.

Lemma startup_purge_witness :
  exists ss' seq' fs',
    setup (__init__ (Some [row_A; row_B]) 2 (Some [fp_A_aa; fp_A_bb; fp_B_aa]))
      = (__init__ (Some ss') seq' (Some fs'), Returned tt)
    /\ (In row_A ss' /\ ~ In row_B ss')
    /\ filter (fun f => fp_song_id f =? 1) fs' = [fp_A_aa; fp_A_bb]
    /\ filter (fun f => fp_song_id f =? 2) fs' = [].
Proof.
  destruct (startup_purge (Some [row_A; row_B]) 2 (Some [fp_A_aa; fp_A_bb; fp_B_aa]))
    as (ss' & seq' & fs' & H1 & _ & H3 & H4 & _ & H6).
  exists ss', seq', fs'. split; [exact H1|]. split; [|split].
  - split.
    + apply H3. split; [simpl; auto | discriminate].
    + intros H. apply H3 in H as [_ H]. now apply H.
  - apply (H6 ltac:(repeat constructor; simpl; intuition discriminate) row_A);
      [simpl; auto | discriminate].
  - destruct (filter (fun f => fp_song_id f =? 2) fs') as [|f l] eqn:E; [reflexivity|].
    assert (Hf : In f (filter (fun f => fp_song_id f =? 2) fs')) by (rewrite E; now left).
    apply filter_In in Hf as [Hf Heq]. apply Z.eqb_eq in Heq.
    exfalso. apply (H4 row_B f); simpl; auto.
Defined.

(* ================================================================= *)
(** ** Facts about recordings *)

Section SongFacts.

Lemma max_rowid_nonneg ss : 0 <= Sql.max_rowid ss.
Proof. induction ss as [|s ss IH]; simpl; lia. Qed.

Lemma max_rowid_ge ss s : In s ss -> song_id s <= Sql.max_rowid ss.
Proof.
  induction ss as [|s0 ss IH]; simpl; [intros []|].
  intros [<- | H]; [lia|]. specialize (IH H). lia.
Qed.

Lemma existsb_sha1 ss b :
  existsb (fun s => Sql.bytes_eqb (file_sha1 s) b) ss = true
  <-> exists s, In s ss /\ file_sha1 s = b.
Proof.
  rewrite existsb_exists. split; intros (s & Hin & H); exists s;
    (split; [exact Hin|]); now apply bytes_eqb_eq.
Qed.

Lemma existsb_sha1_false ss b :
  (forall s, In s ss -> file_sha1 s <> b) ->
  existsb (fun s => Sql.bytes_eqb (file_sha1 s) b) ss = false.
Proof.
  intros H. apply not_true_is_false. intros E.
  apply existsb_sha1 in E as (s & Hin & Hs). exact (H s Hin Hs).
Qed.

(** A filter that no row passes leaves nothing. *)
Lemma filter_none {T} (keep : T -> bool) (rows : list T) :
  (forall r, In r rows -> keep r = false) -> filter keep rows = [].
Proof.
  intros Hnone. induction rows as [|r rows IH]; [reflexivity|].
  cbn [filter]. rewrite (Hnone r (or_introl eq_refl)).
  apply IH. intros r' Hr'. apply Hnone. now right.
Qed.

(** Under UNIQUE, a content hash that is stored is stored once. *)
Lemma unique_sha1_once ss b :
  unique_sha1 ss -> (exists s, In s ss /\ file_sha1 s = b) ->
  List.length (filter (fun s => Sql.bytes_eqb (file_sha1 s) b) ss) = 1%nat.
Proof.
  unfold unique_sha1. induction ss as [|s0 ss IH]; simpl; intros Hnd (s & Hin & Hs).
  - destruct Hin.
  - inversion Hnd as [|? ? Hnin Hnd']; subst.
    destruct (Sql.bytes_eqb (file_sha1 s0) (file_sha1 s)) eqn:E.
    + apply bytes_eqb_eq in E. simpl. f_equal.
      rewrite filter_none; [reflexivity|].
      intros a Ha. apply not_true_is_false. intros Ea.
      apply bytes_eqb_eq in Ea. apply Hnin. rewrite E, <- Ea. now apply in_map.
    + destruct Hin as [-> | Hin].
      * assert (Sql.bytes_eqb (file_sha1 s) (file_sha1 s) = true)
          by now apply bytes_eqb_eq.
        congruence.
      * apply IH; eauto.
Qed.

(** A new content hash is stored under the next id. *)
Lemma insert_song_new c ss name h b :
  songs c = Some ss -> Py.fromhex h = Some b ->
  Z.max (sqlite_sequence c) (Sql.max_rowid ss) < Sql.max_int64 ->
  (forall s, In s ss -> file_sha1 s <> b) ->
  let id := Z.max (sqlite_sequence c) (Sql.max_rowid ss) + 1 in
  insert_song name h c
  = (with_sequence id (with_songs (Some (ss ++ [mkSong id name 0 b])) c), Returned id).
Proof.
  intros Hss Hb Htop Hnew id. unfold insert_song, bind, Sql.INSERT_SONG.
  rewrite Hb, Hss. rewrite (proj2 (Z.leb_gt _ _) Htop).
  now rewrite (existsb_sha1_false ss b Hnew).
Qed.

(** A content hash that is stored is refused. *)
Lemma insert_song_duplicate c ss name h b :
  songs c = Some ss -> Py.fromhex h = Some b ->
  Z.max (sqlite_sequence c) (Sql.max_rowid ss) < Sql.max_int64 ->
  (exists s, In s ss /\ file_sha1 s = b) ->
  insert_song name h c = (c, Raised IntegrityError).
Proof.
  intros Hss Hb Htop Hdup. unfold insert_song, bind, Sql.INSERT_SONG.
  rewrite Hb, Hss. rewrite (proj2 (Z.leb_gt _ _) Htop).
  now rewrite (proj2 (existsb_sha1 ss b) Hdup).
Qed.

(** What a call of [insert_song] that returns has done. *)
Lemma insert_song_returned c c1 name h id :
  insert_song name h c = (c1, Returned id) ->
  exists ss b,
    songs c = Some ss /\ Py.fromhex h = Some b
    /\ id = Z.max (sqlite_sequence c) (Sql.max_rowid ss) + 1
    /\ id <= Sql.max_int64
    /\ c1 = with_sequence id (with_songs (Some (ss ++ [mkSong id name 0 b])) c).
Proof.
  unfold insert_song, bind, Sql.INSERT_SONG, raise.
  destruct (Py.fromhex h) as [b|]; [|discriminate].
  destruct (songs c) as [ss|]; [|discriminate].
  destruct (Sql.max_int64 <=? _) eqn:E; [discriminate|].
  destruct (existsb _ ss); [discriminate|].
  cbn. intros H. injection H as <- <-. apply Z.leb_gt in E.
  exists ss, b. repeat split; auto. lia.
Qed.

End SongFacts.

(** C5: uniqueness on content.  With room left for an id: when the content
    hash is stored already, [insert_song] raises IntegrityError, changes
    nothing, and the hash stays stored once; when it is not, [insert_song]
    returns an id above every id in use, the hash is then stored once, and
    a further [insert_song] with a string for the same bytes raises
    IntegrityError and changes nothing. *)
Theorem content_uniqueness c ss name h b :
  songs c = Some ss -> Py.fromhex h = Some b ->
  Z.max (sqlite_sequence c) (Sql.max_rowid ss) < Sql.max_int64 ->
  ((exists s, In s ss /\ file_sha1 s = b) -> unique_sha1 ss ->
     insert_song name h c = (c, Raised IntegrityError)
     /\ List.length (filter (fun s => Sql.bytes_eqb (file_sha1 s) b) ss) = 1%nat)
  /\ ((forall s, In s ss -> file_sha1 s <> b) ->
      exists id c1 ss1,
        insert_song name h c = (c1, Returned id)
        /\ songs c1 = Some ss1
        /\ fingerprints c1 = fingerprints c
        /\ (forall s, In s ss -> song_id s < id)
        /\ sqlite_sequence c < id
        /\ In (mkSong id name 0 b) ss1
        /\ List.length (filter (fun s => Sql.bytes_eqb (file_sha1 s) b) ss1) = 1%nat
        /\ (forall name2 h2, Py.fromhex h2 = Some b -> id < Sql.max_int64 ->
              insert_song name2 h2 c1 = (c1, Raised IntegrityError))).
Proof.
  intros Hss Hb Htop. split.
  - intros Hdup Huniq. split.
    + now apply (insert_song_duplicate c ss name h b).
    + now apply unique_sha1_once.
  - intros Hnew.
    set (id := Z.max (sqlite_sequence c) (Sql.max_rowid ss) + 1).
    exists id, (with_sequence id (with_songs (Some (ss ++ [mkSong id name 0 b])) c)),
           (ss ++ [mkSong id name 0 b]).
    split; [now apply insert_song_new|]. split; [reflexivity|].
    split; [reflexivity|]. split; [|split; [|split; [|split]]].
    + intros s Hs. pose proof (max_rowid_ge ss s Hs). lia.
    + lia.
    + apply in_or_app. right. now left.
    + rewrite filter_app, length_app.
      rewrite (filter_none _ ss).
      * simpl. now rewrite (proj2 (bytes_eqb_eq b b) eq_refl).
      * intros s Hs. apply not_true_is_false. intros E.
        apply bytes_eqb_eq in E. exact (Hnew s Hs E).
    + intros name2 h2 Hb2 Hroom.
      apply (insert_song_duplicate _ (ss ++ [mkSong id name 0 b]) name2 h2 b);
        [reflexivity | exact Hb2 | |].
      * cbn [sqlite_sequence with_sequence]. 
        assert (Sql.max_rowid (ss ++ [mkSong id name 0 b]) <= id).
        { clear -ss. assert (H : Sql.max_rowid ss < id) by (subst id; lia).
          revert H. generalize id. clear id. intros id.
          induction ss as [|s0 ss0 IH]; simpl; intros H; [lia|].
          assert (Sql.max_rowid ss0 < id) by lia. specialize (IH H0). lia. }
        lia.
      * exists (mkSong id name 0 b). split; [|reflexivity].
        apply in_or_app. right. now left.
Qed.

Lemma content_uniqueness_witness :
  (insert_song "A again" "0A0B" store_A = (store_A, Raised IntegrityError)
   /\ List.length (filter (fun s => Sql.bytes_eqb (file_sha1 s) [x0a; x0b]) [row_A]) = 1%nat)
  /\ exists id c1 ss1,
       insert_song "B" "0c0d" store_A = (c1, Returned id)
       /\ songs c1 = Some ss1
       /\ fingerprints c1 = fingerprints store_A
       /\ (forall s, In s [row_A] -> song_id s < id)
       /\ sqlite_sequence store_A < id
       /\ In (mkSong id "B" 0 [x0c; x0d]) ss1
       /\ List.length (filter (fun s => Sql.bytes_eqb (file_sha1 s) [x0c; x0d]) ss1) = 1%nat
       /\ (forall name2 h2, Py.fromhex h2 = Some [x0c; x0d] -> id < Sql.max_int64 ->
             insert_song name2 h2 c1 = (c1, Raised IntegrityError)).
Proof.
  split.
  - apply (proj1 (content_uniqueness store_A [row_A] "A again" "0A0B" [x0a; x0b]
                    eq_refl eq_refl eq_refl)).
    + exists row_A. split; [simpl; auto | reflexivity].
    + repeat constructor. simpl. tauto.
  - apply (proj2 (content_uniqueness store_A [row_A] "B" "0c0d" [x0c; x0d]
                    eq_refl eq_refl eq_refl)).
    intros s [<- | []]. discriminate.
Defined.

(** C9: lookup round trip.  When [insert_song name h] returns an id,
    [get_song_by_id] on that id returns [name] with the stored digest in
    upper-case hexadecimal, which is [h] in upper case when [h] is made of
    digit pairs; and [insert_song] does return for a hexadecimal [h] whose
    bytes are not stored yet, with room left for an id. *)
Theorem lookup_roundtrip c name h :
  (forall c1 id, insert_song name h c = (c1, Returned id) ->
     exists b, Py.fromhex h = Some b
       /\ get_song_by_id id c1 = Returned (Some (name, Py.upper (Py.hex b)))
       /\ (hexdigits h = true -> Py.upper (Py.hex b) = Py.upper h))
  /\ (forall ss b, songs c = Some ss -> Py.fromhex h = Some b ->
        Z.max (sqlite_sequence c) (Sql.max_rowid ss) < Sql.max_int64 ->
        (forall s, In s ss -> file_sha1 s <> b) ->
        exists c1 id, insert_song name h c = (c1, Returned id)).
Proof.
  split.
  - intros c1 id H.
    apply insert_song_returned in H as (ss & b & Hss & Hb & Hid & Hmax & ->).
    exists b. split; [exact Hb|]. split.
    + unfold get_song_by_id, Sql.SELECT_SONG. cbn [songs with_sequence with_songs].
      pose proof (max_rowid_nonneg ss) as Hnn.
      assert (Hfit : Sql.fits_int64 id = true).
      { unfold Sql.fits_int64. apply andb_true_iff.
        split; apply Z.leb_le; unfold Sql.max_int64 in *; lia. }
      rewrite Hfit, filter_app. rewrite (filter_none _ ss).
      * simpl. rewrite Z.eqb_refl. simpl. now rewrite sql_hex_upper.
      * intros s Hs. apply Z.eqb_neq. pose proof (max_rowid_ge ss s Hs). lia.
    + intros Hd. destruct (fromhex_hexdigits h Hd) as (b' & Hb' & Hu). congruence.
  - intros ss b Hss Hb Htop Hnew. eexists _, _.
    now apply (insert_song_new c ss name h b).
Qed.

Lemma lookup_roundtrip_witness :
  exists b, Py.fromhex "0c0d" = Some b
    /\ get_song_by_id 2 (fst (insert_song "B" "0c0d" store_A))
       = Returned (Some ("B", Py.upper (Py.hex b)))
    /\ (hexdigits "0c0d" = true -> Py.upper (Py.hex b) = "0C0D").
Proof.
  apply (proj1 (lookup_roundtrip store_A "B" "0c0d")). reflexivity.
Defined.

(* ================================================================= *)
(** ** Referential integrity *)

Section IntegrityFacts.

Lemma preserves_ret {A} (a : A) : preserves (ret a).
Proof. intros c Hfk Hri. auto. Qed.

Lemma preserves_raise {A} (e : exn) : preserves (@raise A e).
Proof. intros c Hfk Hri. auto. Qed.

Lemma preserves_bind {A B} (m : M A) (k : A -> M B) :
  preserves m -> (forall a, preserves (k a)) -> preserves (bind m k).
Proof.
  intros Hm Hk c Hfk Hri. unfold bind.
  destruct (Hm c Hfk Hri) as [Hfk' Hri'].
  destruct (m c) as [c' [a|e]]; simpl in *; [|auto].
  now apply Hk.
Qed.

Lemma preserves_commit : preserves Sql.commit.
Proof. apply preserves_ret. Qed.

Lemma preserves_create_songs : preserves Sql.CREATE_SONGS_TABLE.
Proof.
  intros c Hfk Hri. unfold Sql.CREATE_SONGS_TABLE.
  destruct (songs c) as [ss|] eqn:Hss; simpl; [auto|].
  split; [exact Hfk|]. intros fs f Hfs Hf. simpl in Hfs.
  destruct (Hri fs f Hfs Hf) as (ss & s & Hss' & _). congruence.
Qed.

Lemma preserves_create_fingerprints : preserves Sql.CREATE_FINGERPRINTS_TABLE.
Proof.
  intros c Hfk Hri. unfold Sql.CREATE_FINGERPRINTS_TABLE.
  destruct (fingerprints c) as [fs|] eqn:Hfs; simpl; [auto|].
  split; [exact Hfk|]. intros fs f Hfs' Hf. simpl in Hfs'.
  injection Hfs' as <-. destruct Hf.
Qed.

(** ON DELETE CASCADE keeps every remaining fingerprint with its song. *)
Lemma preserves_delete p : preserves (Sql.delete_songs_where p).
Proof.
  intros c Hfk Hri. unfold Sql.delete_songs_where.
  destruct (songs c) as [ss|] eqn:Hss; simpl; [|auto].
  split; [exact Hfk|]. rewrite Hfk. intros fs' f Hfs' Hf. simpl in Hfs'.
  destruct (fingerprints c) as [fs|] eqn:Hfs; [|discriminate].
  injection Hfs' as <-. apply filter_In in Hf as [Hf Hkeep].
  destruct (Hri fs f Hfs Hf) as (ss0 & s & Hss0 & Hs & Hid).
  assert (ss0 = ss) by congruence. subst ss0.
  exists (filter (fun s => negb (p s)) ss), s. split; [reflexivity|].
  split; [|exact Hid]. apply filter_In. split; [exact Hs|].
  apply negb_true_iff. apply not_true_is_false. intros Hp.
  apply negb_true_iff in Hkeep.
  assert (Sql.has_id (map song_id (filter p ss)) (fp_song_id f) = true);
    [|congruence].
  apply has_id_In. rewrite <- Hid. apply in_map, filter_In. auto.
Qed.

Lemma preserves_drop_fingerprints : preserves Sql.DROP_FINGERPRINTS.
Proof.
  intros c Hfk Hri. split; [exact Hfk|]. intros fs f Hfs. discriminate.
Qed.

Lemma preserves_drop_songs : preserves Sql.DROP_SONGS.
Proof.
  intros c Hfk Hri. unfold Sql.DROP_SONGS.
  destruct (songs c) as [ss|] eqn:Hss; simpl; [|auto].
  destruct (preserves_delete (fun _ => true) c Hfk Hri) as [Hfk' Hri'].
  destruct (Sql.delete_songs_where (fun _ => true) c) as [c' res] eqn:E.
  simpl in *. split; [exact Hfk'|]. intros fs f Hfs Hf. simpl in Hfs.
  destruct (Hri' fs f Hfs Hf) as (ss' & s & Hss' & Hs & _).
  revert E Hss'. unfold Sql.delete_songs_where. rewrite Hss.
  intros E. injection E as <- _. simpl. intros Hss'. injection Hss' as <-.
  apply filter_In in Hs as [_ Hs]. discriminate.
Qed.

Lemma preserves_insert_song name sha1 : preserves (Sql.INSERT_SONG name sha1).
Proof.
  intros c Hfk Hri. unfold Sql.INSERT_SONG.
  destruct (songs c) as [ss|] eqn:Hss; simpl; [|auto].
  destruct (Sql.max_int64 <=? _); simpl; [auto|].
  destruct (existsb _ ss); simpl; [auto|].
  split; [exact Hfk|]. intros fs f Hfs Hf. simpl in Hfs.
  destruct (Hri fs f Hfs Hf) as (ss0 & s & Hss0 & Hs & Hid).
  assert (ss0 = ss) by congruence. subst ss0.
  eexists _, s. split; [reflexivity|]. split; [|exact Hid].
  apply in_or_app. now left.
Qed.

Lemma preserves_prepare : preserves Sql.prepare_insert_fingerprint.
Proof.
  intros c Hfk Hri. now rewrite prepare_insert_fingerprint_same.
Qed.

(** A row is added only when its song is there. *)
Lemma preserves_step r : preserves (Sql.step_insert_fingerprint r).
Proof.
  intros c Hfk Hri. unfold Sql.step_insert_fingerprint.
  destruct (negb _); simpl; [auto|].
  destruct (fingerprints c) as [fs|] eqn:Hfs; simpl; [|auto].
  destruct (existsb _ fs); simpl; [auto|].
  rewrite Hfk. simpl.
  destruct (Sql.has_id _ (fp_song_id r)) eqn:Hid; simpl; [|auto].
  split; [exact Hfk|]. intros fs' f Hfs' Hf. simpl in Hfs'.
  injection Hfs' as <-. simpl. apply in_app_or in Hf as [Hf | [<- | []]].
  - exact (Hri fs f Hfs Hf).
  - apply has_id_In, in_map_iff in Hid as (s & Hs & Hin).
    destruct (songs c) as [ss|]; [|destruct Hin]. exists ss, s. auto.
Qed.

Lemma preserves_step_all rows : preserves (Sql.step_all rows).
Proof.
  induction rows as [|r rows IH]; simpl.
  - apply preserves_ret.
  - apply preserves_bind; [apply preserves_step | intros _; exact IH].
Qed.

Lemma preserves_update sid : preserves (Sql.UPDATE_SONG_FINGERPRINTED sid).
Proof.
  intros c Hfk Hri. unfold Sql.UPDATE_SONG_FINGERPRINTED.
  destruct (songs c) as [ss|] eqn:Hss; simpl; [|auto].
  destruct (Sql.fits_int64 sid); simpl; [|auto].
  split; [exact Hfk|]. intros fs f Hfs Hf. simpl in Hfs.
  destruct (Hri fs f Hfs Hf) as (ss0 & s & Hss0 & Hs & Hid).
  assert (ss0 = ss) by congruence. subst ss0.
  eexists _, _. split; [reflexivity|]. split.
  - apply in_map. exact Hs.
  - simpl. destruct (song_id s =? sid); exact Hid.
Qed.

(** With foreign keys on, a row for a recording that is not stored fails
    the statement and leaves the connection as it was. *)
Lemma step_orphan r c :
  foreign_keys c = true -> referential_integrity c ->
  (forall ss, songs c = Some ss -> ~ In (fp_song_id r) (map song_id ss)) ->
  exists e, Sql.step_insert_fingerprint r c = (c, Raised e)
    /\ (Sql.fits_int64 (fp_song_id r) && Sql.fits_int64 (offset r) = true ->
        fingerprints c <> None -> e = IntegrityError).
Proof.
  intros Hfk Hri Hno. unfold Sql.step_insert_fingerprint.
  destruct (Sql.fits_int64 (fp_song_id r) && Sql.fits_int64 (offset r)); simpl;
    [|exists OverflowError; split; [reflexivity | discriminate]].
  destruct (fingerprints c) as [fs|] eqn:Hfs;
    [|exists OperationalError; split; [reflexivity | congruence]].
  destruct (existsb _ fs) eqn:E.
  - apply existsb_fingerprint in E.
    destruct (Hri fs r Hfs E) as (ss & s & Hss & Hs & Hid).
    exfalso. apply (Hno ss Hss). rewrite <- Hid. now apply in_map.
  - rewrite Hfk. simpl.
    destruct (Sql.has_id _ (fp_song_id r)) eqn:Hid.
    + apply has_id_In in Hid. destruct (songs c) as [ss|]; [|destruct Hid].
      exfalso. exact (Hno ss eq_refl Hid).
    + exists IntegrityError. auto.
Qed.

Lemma prepare_outcome c :
  Sql.prepare_insert_fingerprint c = (c, Returned tt)
  \/ Sql.prepare_insert_fingerprint c = (c, Raised OperationalError).
Proof.
  unfold Sql.prepare_insert_fingerprint.
  destruct (fingerprints c); [destruct (negb (foreign_keys c) || _)%bool|]; auto.
Qed.

Lemma preserves_setup : preserves setup.
Proof.
  unfold setup.
  apply preserves_bind; [apply preserves_create_songs | intros _].
  apply preserves_bind; [apply preserves_create_fingerprints | intros _].
  apply preserves_bind; [apply preserves_delete | intros _].
  apply preserves_commit.
Qed.

Lemma preserves_empty : preserves empty.
Proof.
  unfold empty.
  apply preserves_bind; [apply preserves_drop_fingerprints | intros _].
  apply preserves_bind; [apply preserves_drop_songs | intros _].
  apply preserves_bind; [apply preserves_commit | intros _].
  apply preserves_setup.
Qed.

End IntegrityFacts.

(** C8: a referential violation fails the operation.  With foreign keys
    on (as [__init__] sets them) and the FOREIGN KEY satisfied, [insert]
    for a recording id that is not stored raises an exception and leaves
    the connection as it was (IntegrityError when the hash is hexadecimal,
    the integers fit and the tables exist), and so does [insert_hashes]
    with at least one pair; a new file satisfies the FOREIGN KEY and every
    method of the class keeps it satisfied. *)
Theorem referential_violation c sid :
  foreign_keys c = true -> referential_integrity c ->
  (forall ss, songs c = Some ss -> ~ In sid (map song_id ss)) ->
  (forall h o, exists e, insert h sid o c = (c, Raised e))
  /\ (forall h o b ss fs,
        Py.fromhex h = Some b -> songs c = Some ss -> fingerprints c = Some fs ->
        Sql.fits_int64 sid = true -> Sql.fits_int64 o = true ->
        insert h sid o c = (c, Raised IntegrityError))
  /\ (forall hashes, hashes <> [] ->
        exists e, insert_hashes sid hashes c = (c, Raised e))
  /\ ((forall seq, referential_integrity (__init__ None seq None))
      /\ preserves setup /\ preserves empty
      /\ (forall name fh, preserves (insert_song name fh))
      /\ (forall h s o, preserves (insert h s o))
      /\ (forall s hs, preserves (insert_hashes s hs))
      /\ (forall s, preserves (set_song_fingerprinted s))
      /\ (forall s, preserves (delete_song s))).
Proof.
  intros Hfk Hri Hno. split; [|split; [|split]].
  - intros h o. unfold insert. destruct (Py.fromhex h) as [b|];
      [|exists ValueError; reflexivity].
    unfold Sql.INSERT_FINGERPRINT, bind.
    destruct (prepare_outcome c) as [-> | ->]; [|eauto].
    destruct (step_orphan (mkFingerprint b sid o) c Hfk Hri Hno) as (e & -> & _).
    eauto.
  - intros h o b ss fs Hb Hss Hfs Hfs1 Hfo. unfold insert. rewrite Hb.
    unfold Sql.INSERT_FINGERPRINT, bind, Sql.prepare_insert_fingerprint.
    rewrite Hfs, Hss, orb_true_r.
    destruct (step_orphan (mkFingerprint b sid o) c Hfk Hri Hno) as (e & -> & He).
    rewrite He; [reflexivity | simpl; now rewrite Hfs1, Hfo | congruence].
  - intros hashes Hne. unfold insert_hashes.
    destruct (rows_of sid hashes) as [rows|] eqn:Hrows;
      [|exists ValueError; reflexivity].
    destruct hashes as [|[h o] hashes]; [congruence|]. simpl in Hrows.
    destruct (Py.fromhex h) as [b|]; [|discriminate].
    destruct (rows_of sid hashes) as [rows'|]; [|discriminate].
    injection Hrows as <-.
    unfold Sql.INSERT_FINGERPRINT_many, bind.
    destruct (prepare_outcome c) as [-> | ->]; [|eauto].
    cbn [Sql.step_all]. unfold bind.
    destruct (step_orphan (mkFingerprint b sid o) c Hfk Hri Hno) as (e & -> & _).
    eauto.
  - split; [intros seq fs f Hfs; discriminate|].
    split; [exact preserves_setup|]. split; [exact preserves_empty|].
    split; [|split; [|split; [|split]]].
    + intros name fh. unfold insert_song.
      destruct (Py.fromhex fh); [|apply preserves_raise].
      apply preserves_bind; [apply preserves_insert_song|]. intros id.
      apply preserves_bind; [apply preserves_commit | intros _; apply preserves_ret].
    + intros h s o. unfold insert.
      destruct (Py.fromhex h); [|apply preserves_raise].
      apply preserves_bind; [apply preserves_prepare | intros _; apply preserves_step].
    + intros s hs. unfold insert_hashes.
      destruct (rows_of s hs); [|apply preserves_raise].
      apply preserves_bind; [|intros _; apply preserves_commit].
      apply preserves_bind; [apply preserves_prepare | intros _; apply preserves_step_all].
    + intros s. apply preserves_bind; [apply preserves_update | intros _; apply preserves_commit].
    + intros s. apply preserves_delete.
Qed.

Lemma referential_violation_witness :
  insert "aa" 7 10 store_A = (store_A, Raised IntegrityError)
  /\ exists e, insert_hashes 7 [("aa", 10); ("bb", 20)] store_A = (store_A, Raised e).
Proof.
  assert (Hri : referential_integrity store_A).
  { intros fs f Hfs Hf. injection Hfs as <-. exists [row_A], row_A.
    split; [reflexivity|]. split; [now left|].
    destruct Hf as [<- | [<- | []]]; reflexivity. }
  assert (Hno : forall ss, songs store_A = Some ss -> ~ In 7 (map song_id ss)).
  { intros ss Hss. injection Hss as <-. intros [H | []]. discriminate. }
  destruct (referential_violation store_A 7 eq_refl Hri Hno) as (_ & H2 & H3 & _).
  split.
  - apply (H2 "aa" 10 [xaa] [row_A] [fp_A_aa; fp_A_bb]); reflexivity.
  - apply H3. discriminate.
Defined.

(* ================================================================= *)
(** ** The constraints of the schema

    PRIMARY KEY (song_id), UNIQUE (file_sha1) and UNIQUE (hash, song_id,
    offset) hold on a new file and after every method, so the theorems
    above may assume them of any connection the class has worked on. *)

Section SchemaFacts.

(** Deleting rows keeps a column free of duplicates. *)
Lemma unique_column_filter {K} (column : song -> K) (keep : song -> bool) :
  forall ss, NoDup (map column ss) -> NoDup (map column (filter keep ss)).
Proof.
  intros ss. induction ss as [|s ss IH]; intros Hnd; [constructor|].
  apply NoDup_cons_iff in Hnd as [Hfresh Hrest]. cbn [filter].
  destruct (keep s); [|now apply IH].
  cbn [map]. apply NoDup_cons; [|now apply IH].
  intros Hin. apply Hfresh. apply in_map_iff in Hin as (s' & Hs' & Hin).
  apply filter_In in Hin as [Hin _]. rewrite <- Hs'. now apply in_map.
Qed.

Lemma NoDup_snoc {A} (l : list A) (a : A) : NoDup l -> ~ In a l -> NoDup (l ++ [a]).
Proof.
  intros Hl Ha. apply NoDup_app; [exact Hl | repeat constructor; intros [] |].
  intros x Hx [<- | []]. exact (Ha Hx).
Qed.

Lemma keeps_ret {A} (a : A) : keeps_schema (ret a).
Proof. intros c H. exact H. Qed.

Lemma keeps_raise {A} (e : exn) : keeps_schema (@raise A e).
Proof. intros c H. exact H. Qed.

Lemma keeps_bind {A B} (m : M A) (k : A -> M B) :
  keeps_schema m -> (forall a, keeps_schema (k a)) -> keeps_schema (bind m k).
Proof.
  intros Hm Hk c H. unfold bind. specialize (Hm c H).
  destruct (m c) as [c' [a|e]]; simpl in *; [now apply Hk | exact Hm].
Qed.

Lemma keeps_create_songs : keeps_schema Sql.CREATE_SONGS_TABLE.
Proof.
  intros c H. unfold Sql.CREATE_SONGS_TABLE.
  destruct (songs c) eqn:E; [exact H|]. destruct H as (_ & _ & H3).
  repeat split; simpl; try constructor. exact H3.
Qed.

Lemma keeps_create_fingerprints : keeps_schema Sql.CREATE_FINGERPRINTS_TABLE.
Proof.
  intros c H. unfold Sql.CREATE_FINGERPRINTS_TABLE.
  destruct (fingerprints c) eqn:E; [exact H|]. destruct H as (H1 & H2 & _).
  repeat split; simpl; try constructor; assumption.
Qed.

Lemma keeps_delete p : keeps_schema (Sql.delete_songs_where p).
Proof.
  intros c H. unfold Sql.delete_songs_where.
  destruct (songs c) as [ss|] eqn:Hss; [|exact H].
  destruct H as (H1 & H2 & H3). rewrite Hss in H1, H2. simpl in H1, H2.
  unfold schema_ok. simpl.
  split; [now apply unique_column_filter|]. split; [now apply unique_column_filter|].
  destruct (foreign_keys c); [|exact H3].
  destruct (fingerprints c) as [fs|]; simpl in *; [|constructor].
  now apply NoDup_filter.
Qed.

Lemma keeps_drop_fingerprints : keeps_schema Sql.DROP_FINGERPRINTS.
Proof. intros c (H1 & H2 & _). repeat split; simpl; try assumption. constructor. Qed.

Lemma keeps_drop_songs : keeps_schema Sql.DROP_SONGS.
Proof.
  intros c H. unfold Sql.DROP_SONGS.
  destruct (songs c) as [ss|] eqn:Hss; [|exact H].
  pose proof (keeps_delete (fun _ => true) c H) as (_ & _ & H3).
  destruct (Sql.delete_songs_where (fun _ => true) c) as [c' res].
  simpl in *. repeat split; simpl; try constructor. exact H3.
Qed.

Lemma keeps_insert_song name sha1 : keeps_schema (Sql.INSERT_SONG name sha1).
Proof.
  intros c H. unfold Sql.INSERT_SONG.
  destruct (songs c) as [ss|] eqn:Hss; [|exact H].
  destruct (Sql.max_int64 <=? _); [exact H|].
  destruct (existsb _ ss) eqn:E; [exact H|].
  destruct H as (H1 & H2 & H3). rewrite Hss in H1, H2. simpl in H1, H2.
  unfold schema_ok. simpl.
  split; [|split; [|exact H3]].
  - unfold primary_key. rewrite map_app. apply NoDup_snoc; [exact H1|].
    simpl. intros Hin. apply in_map_iff in Hin as (s & Hs & Hin).
    pose proof (max_rowid_ge ss s Hin). lia.
  - unfold unique_sha1. rewrite map_app. apply NoDup_snoc; [exact H2|].
    simpl. intros Hin. apply in_map_iff in Hin as (s & Hs & Hin).
    assert (existsb (fun s => Sql.bytes_eqb (file_sha1 s) sha1) ss = true);
      [|congruence].
    apply existsb_sha1. eauto.
Qed.

Lemma keeps_prepare : keeps_schema Sql.prepare_insert_fingerprint.
Proof. intros c H. now rewrite prepare_insert_fingerprint_same. Qed.

Lemma keeps_step r : keeps_schema (Sql.step_insert_fingerprint r).
Proof.
  intros c H. unfold Sql.step_insert_fingerprint.
  destruct (negb _); [exact H|].
  destruct (fingerprints c) as [fs|] eqn:Hfs; [|exact H].
  destruct (existsb _ fs) eqn:E; [exact H|].
  destruct (_ && _); [exact H|].
  destruct H as (H1 & H2 & H3). rewrite Hfs in H3. simpl in H3.
  unfold schema_ok. simpl. repeat split; try assumption.
  apply NoDup_snoc; [exact H3|]. intros Hin.
  apply existsb_fingerprint in Hin. congruence.
Qed.

Lemma keeps_step_all rows : keeps_schema (Sql.step_all rows).
Proof.
  induction rows as [|r rows IH]; simpl.
  - apply keeps_ret.
  - apply keeps_bind; [apply keeps_step | intros _; exact IH].
Qed.

Lemma keeps_update sid : keeps_schema (Sql.UPDATE_SONG_FINGERPRINTED sid).
Proof.
  intros c H. unfold Sql.UPDATE_SONG_FINGERPRINTED.
  destruct (songs c) as [ss|] eqn:Hss; [|exact H].
  destruct (Sql.fits_int64 sid); [|exact H].
  destruct H as (H1 & H2 & H3). rewrite Hss in H1, H2.
  unfold schema_ok, primary_key, unique_sha1. simpl in *.
  rewrite !map_map.
  rewrite (map_ext _ song_id), (map_ext (fun x => file_sha1 _) file_sha1);
    [auto | |]; intros s; destruct (song_id s =? sid); reflexivity.
Qed.

Lemma keeps_setup : keeps_schema setup.
Proof.
  unfold setup.
  apply keeps_bind; [apply keeps_create_songs | intros _].
  apply keeps_bind; [apply keeps_create_fingerprints | intros _].
  apply keeps_bind; [apply keeps_delete | intros _]. apply keeps_ret.
Qed.

(** A new file satisfies the constraints and every method keeps them. *)
Lemma schema_kept :
  (forall seq, schema_ok (__init__ None seq None))
  /\ keeps_schema setup /\ keeps_schema empty
  /\ (forall name fh, keeps_schema (insert_song name fh))
  /\ (forall h s o, keeps_schema (insert h s o))
  /\ (forall s hs, keeps_schema (insert_hashes s hs))
  /\ (forall s, keeps_schema (set_song_fingerprinted s))
  /\ (forall s, keeps_schema (delete_song s)).
Proof.
  split; [intros seq; repeat split; constructor|].
  split; [exact keeps_setup|]. split; [|split; [|split; [|split; [|split]]]].
  - unfold empty.
    apply keeps_bind; [apply keeps_drop_fingerprints | intros _].
    apply keeps_bind; [apply keeps_drop_songs | intros _].
    apply keeps_bind; [apply keeps_ret | intros _]. apply keeps_setup.
  - intros name fh. unfold insert_song.
    destruct (Py.fromhex fh); [|apply keeps_raise].
    apply keeps_bind; [apply keeps_insert_song | intros id].
    apply keeps_bind; [apply keeps_ret | intros _; apply keeps_ret].
  - intros h sid o. unfold insert.
    destruct (Py.fromhex h); [|apply keeps_raise].
    apply keeps_bind; [apply keeps_prepare | intros _; apply keeps_step].
  - intros sid hs. unfold insert_hashes.
    destruct (rows_of sid hs); [|apply keeps_raise].
    apply keeps_bind; [|intros _; apply keeps_ret].
    apply keeps_bind; [apply keeps_prepare | intros _; apply keeps_step_all].
  - intros sid. apply keeps_bind; [apply keeps_update | intros _; apply keeps_ret].
  - intros sid. apply keeps_delete.
Qed.

End SchemaFacts.

(* ================================================================= *)
(** ** Further properties: grouper and the number of queries *)

Section ChunkFacts.

(** When what is left fits the tuple being built, one tuple takes it all. *)
Lemma zip_longest_from_short n l : forall k acc,
  (List.length l <= k)%nat -> (l <> [] \/ acc <> []) ->
  map keep_truthy (Py.zip_longest_from n k acc l)
  = [keep_truthy (rev acc) ++ filter Py.truthy l].
Proof.
  induction l as [|x l IH]; intros k acc Hlen Hne.
  - destruct acc as [|a acc]; [destruct Hne; congruence|].
    cbn [Py.zip_longest_from map filter].
    now rewrite keep_truthy_app, keep_truthy_fill.
  - destruct k as [|[|k]]; [simpl in Hlen; lia | |].
    + destruct l as [|y l]; [|simpl in Hlen; lia].
      cbn [Py.zip_longest_from map rev filter].
      rewrite keep_truthy_app. cbn. destruct (Py.truthy x); reflexivity.
    + cbn [Py.zip_longest_from]. rewrite IH; [|simpl in Hlen; lia | right; discriminate].
      cbn [rev filter]. rewrite keep_truthy_app. cbn.
      destruct (Py.truthy x); cbn; now rewrite <- ?app_assoc, ?app_nil_r.
Qed.

Lemma dict_set_length k v d :
  (List.length (Py.dict_set k v d) <= S (List.length d))%nat.
Proof.
  induction d as [|[k' v'] d IH]; simpl; [lia|].
  destruct (String.eqb k' k); simpl; lia.
Qed.

Lemma mapper_from_length hashes : forall m,
  (List.length (mapper_from m hashes) <= List.length m + List.length hashes)%nat.
Proof.
  induction hashes as [|[h o] hashes IH]; intros m; [simpl; lia|].
  rewrite mapper_from_cons. specialize (IH (Py.dict_set (Py.upper h) o m)).
  pose proof (dict_set_length (Py.upper h) o m). simpl. lia.
Qed.

End ChunkFacts.

(** X1: the chunks of [grouper].  With [n >= 1] the chunks put end to end
    are the truthy items in their order, and a non-empty list of at most
    [n] items makes one chunk; no chunk holds more than [n] items; with
    [n = 0], or from the empty list, there is no chunk at all. *)
Theorem grouper_chunks l n :
  grouper l 0 = []
  /\ grouper [] n = []
  /\ Forall (fun chunk => (List.length chunk <= n)%nat) (grouper l n)
  /\ ((1 <= n)%nat -> List.concat (grouper l n) = filter Py.truthy l)
  /\ ((List.length l <= n)%nat -> l <> [] -> grouper l n = [filter Py.truthy l]).
Proof.
  split; [destruct l; reflexivity|]. split; [reflexivity|].
  split; [apply grouper_length|]. split; [apply grouper_concat|].
  intros Hlen Hne. unfold grouper, Py.zip_longest_shared.
  rewrite zip_longest_from_short; auto.
Qed.

Lemma grouper_chunks_witness :
  List.concat (grouper ["AA"; ""; "BB"; "CC"] 3) = ["AA"; "BB"; "CC"]
  /\ grouper ["AA"; ""; "BB"] 3 = [["AA"; "BB"]].
Proof.
  destruct (grouper_chunks ["AA"; ""; "BB"; "CC"] 3) as (_ & _ & _ & H & _).
  destruct (grouper_chunks ["AA"; ""; "BB"] 3) as (_ & _ & _ & _ & H').
  split; [apply H; lia | apply H'; [simpl; lia | discriminate]].
Defined.

(** X2: a batch of at most 999 pairs, none with the empty string as its
    hash, is answered by one query: [return_matches] is the single query
    for all hashes, in what it yields, in which order, and in how it ends. *)
Theorem small_batch_single_query hashes c :
  hashes <> [] ->
  (List.length hashes <= 999)%nat ->
  (forall h o, In (h, o) hashes -> h <> EmptyString) ->
  return_matches hashes c = return_matches_unchunked hashes c.
Proof.
  intros Hne Hlen Hnonempty. unfold return_matches, return_matches_unchunked.
  set (mapper := mapper_of hashes).
  assert (Hkeys : grouper (Py.keys mapper) 999 = [Py.keys mapper]).
  { pose proof (mapper_from_length hashes []) as Hl.
    rewrite <- (filter_all Py.truthy (Py.keys mapper)) at 2
      by (apply keys_truthy; exact Hnonempty).
    unfold grouper, Py.zip_longest_shared. rewrite zip_longest_from_short.
    - reflexivity.
    - unfold Py.keys. rewrite length_map. fold (mapper_of hashes) in Hl.
      simpl in Hl. subst mapper. lia.
    - left. destruct hashes as [|[h o] hashes]; [congruence|].
      intros Hnil.
      assert (Hin : In (Py.upper h) (Py.keys mapper)).
      { apply mapper_of_keys. exists h, o. split; [now left | reflexivity]. }
      rewrite Hnil in Hin. destruct Hin. }
  rewrite Hkeys. cbn [query_chunks].
  destruct (query_chunk mapper (Py.keys mapper) c) as [out [[]|e]];
    [now rewrite app_nil_r | reflexivity].
Qed.

Lemma small_batch_single_query_witness :
  return_matches [("AA", 3); ("bb", 5); ("zz", 0)] store_AB
  = return_matches_unchunked [("AA", 3); ("bb", 5); ("zz", 0)] store_AB.
Proof.
  apply small_batch_single_query.
  - discriminate.
  - simpl. lia.
  - intros h o [H | [H | [H | []]]]; injection H as <- <-; discriminate.
Defined.

(* ================================================================= *)
(** ** Further properties: the lifecycle of the tables *)

(** X3: [empty] raises nothing on any connection, whatever tables it
    holds, and leaves both tables empty; the AUTOINCREMENT counter goes
    with the songs table, so the next recording gets song_id 1 again. *)
Theorem empty_resets c :
  empty c = (mkConnection (foreign_keys c) (Some []) 0 (Some []), Returned tt)
  /\ (forall name h b, Py.fromhex h = Some b ->
        exists c', insert_song name h (fst (empty c)) = (c', Returned 1)
          /\ songs c' = Some [mkSong 1 name 0 b])
  /\ get_num_songs (fst (empty c)) = Returned 0
  /\ get_num_fingerprints (fst (empty c)) = Returned 0.
Proof.
  assert (H : empty c = (mkConnection (foreign_keys c) (Some []) 0 (Some []),
                         Returned tt)).
  { destruct c as [[] [ss|] seq [fs|]]; reflexivity. }
  rewrite H. split; [reflexivity|]. split; [|split; reflexivity].
  intros name h b Hb. eexists. unfold insert_song. rewrite Hb.
  split; reflexivity.
Qed.

Lemma empty_resets_witness :
  exists c', insert_song "C" "0e0f" (fst (empty store_AB)) = (c', Returned 1)
    /\ songs c' = Some [mkSong 1 "C" 0 [x0e; x0f]].
Proof.
  apply (proj1 (proj2 (empty_resets store_AB))). reflexivity.
Defined.

Section FlagFacts.

Lemma mark_id sid s : song_id (mark sid s) = song_id s.
Proof. unfold mark. destruct (song_id s =? sid); reflexivity. Qed.

Lemma mark_again sid s : mark sid (mark sid s) = mark sid s.
Proof.
  unfold mark. destruct (song_id s =? sid) eqn:E; simpl; now rewrite E.
Qed.

Lemma mark_other sid s : song_id s <> sid -> mark sid s = s.
Proof.
  intros H. unfold mark. now rewrite (proj2 (Z.eqb_neq _ _) H).
Qed.

Lemma set_song_fingerprinted_eq sid c ss :
  songs c = Some ss -> Sql.fits_int64 sid = true ->
  set_song_fingerprinted sid c = (with_songs (Some (map (mark sid) ss)) c, Returned tt).
Proof.
  intros Hss Hfit.
  unfold set_song_fingerprinted, bind, Sql.UPDATE_SONG_FINGERPRINTED.
  now rewrite Hss, Hfit.
Qed.

End FlagFacts.

(** X4: [set_song_fingerprinted] on a stored id sets the flag of the rows
    with that id to 1 and changes nothing else: ids, names and digests
    stay, rows of other ids stay as they are; on an id that is not stored
    it changes nothing and raises nothing; calling it again changes
    nothing more. *)
Theorem mark_fingerprinted sid c ss :
  songs c = Some ss -> Sql.fits_int64 sid = true ->
  exists ss',
    set_song_fingerprinted sid c = (with_songs (Some ss') c, Returned tt)
    /\ map song_id ss' = map song_id ss
    /\ map song_name ss' = map song_name ss
    /\ map file_sha1 ss' = map file_sha1 ss
    /\ (forall s', In s' ss' -> song_id s' = sid -> fingerprinted s' = 1)
    /\ (forall s, In s ss -> song_id s <> sid -> In s ss')
    /\ (~ In sid (map song_id ss) -> ss' = ss)
    /\ set_song_fingerprinted sid (with_songs (Some ss') c)
       = (with_songs (Some ss') c, Returned tt).
Proof.
  intros Hss Hfit. exists (map (mark sid) ss).
  split; [now apply set_song_fingerprinted_eq|].
  split; [|split; [|split; [|split; [|split; [|split]]]]].
  - rewrite map_map. apply map_ext. apply mark_id.
  - rewrite map_map. apply map_ext. intros s. unfold mark.
    destruct (song_id s =? sid); reflexivity.
  - rewrite map_map. apply map_ext. intros s. unfold mark.
    destruct (song_id s =? sid); reflexivity.
  - intros s' Hin Hid. apply in_map_iff in Hin as (s & <- & _).
    rewrite mark_id in Hid. unfold mark.
    now rewrite (proj2 (Z.eqb_eq _ _) Hid).
  - intros s Hin Hid. apply in_map_iff. exists s. split; [now apply mark_other | exact Hin].
  - intros Hno. rewrite <- (map_id ss) at 2. apply map_ext_in.
    intros s Hs. apply mark_other. intros Heq. apply Hno. rewrite <- Heq.
    now apply in_map.
  - rewrite (set_song_fingerprinted_eq sid (with_songs (Some (map (mark sid) ss)) c)
               (map (mark sid) ss) eq_refl Hfit).
    unfold with_songs. simpl. do 3 f_equal.
    rewrite map_map. apply map_ext. apply mark_again.
Qed.

Lemma mark_fingerprinted_witness :
  exists ss',
    set_song_fingerprinted 2 store_AB = (with_songs (Some ss') store_AB, Returned tt)
    /\ map song_id ss' = [1; 2]
    /\ (forall s', In s' ss' -> song_id s' = 2 -> fingerprinted s' = 1)
    /\ In row_A ss'.
Proof.
  destruct (mark_fingerprinted 2 store_AB [row_A; row_B] eq_refl eq_refl)
    as (ss' & H1 & H2 & _ & _ & H5 & H6 & _).
  exists ss'. split; [exact H1|]. split; [exact H2|]. split; [exact H5|].
  apply H6; [now left | discriminate].
Defined.

Section LookupFacts.

(** Under PRIMARY KEY a stored id selects its one row. *)
Lemma select_by_id ss s :
  primary_key ss -> In s ss ->
  filter (fun s' => song_id s' =? song_id s) ss = [s].
Proof.
  unfold primary_key. induction ss as [|s0 ss IH]; intros Hpk Hin; [destruct Hin|].
  cbn [map] in Hpk. apply NoDup_cons_iff in Hpk as [Hfresh Hpk]. cbn [filter].
  destruct Hin as [-> | Hin].
  - rewrite Z.eqb_refl. f_equal. apply filter_none.
    intros s' Hs'. apply Z.eqb_neq. intros Heq. apply Hfresh.
    rewrite <- Heq. now apply in_map.
  - destruct (song_id s0 =? song_id s) eqn:E; [|now apply IH].
    apply Z.eqb_eq in E. exfalso. apply Hfresh. rewrite E. now apply in_map.
Qed.

Lemma hd_error_map_None {A B} (f : A -> B) (l : list A) :
  hd_error (map f l) = None <-> l = [].
Proof. destruct l; simpl; split; congruence. Qed.

End LookupFacts.

(** X5: [get_song_by_id] on a connection with a songs table and an id
    that fits.  It returns None exactly when no row has the id, and raises
    nothing; under PRIMARY KEY it returns the name and the upper-case
    hexadecimal digest of the row that has it. *)
Theorem get_song_by_id_found sid c ss :
  songs c = Some ss -> Sql.fits_int64 sid = true ->
  (get_song_by_id sid c = Returned None <-> ~ In sid (map song_id ss))
  /\ (exists r, get_song_by_id sid c = Returned r)
  /\ (primary_key ss -> forall s, In s ss -> song_id s = sid ->
        get_song_by_id sid c
        = Returned (Some (song_name s, Py.upper (Py.hex (file_sha1 s))))).
Proof.
  intros Hss Hfit. unfold get_song_by_id, Sql.SELECT_SONG, fetchone.
  rewrite Hss, Hfit. split; [|split].
  - split.
    + intros H. injection H as H. apply hd_error_map_None in H.
      intros Hin. apply in_map_iff in Hin as (s & Hid & Hin).
      assert (Hf : In s (filter (fun s0 => song_id s0 =? sid) ss)).
      { apply filter_In. split; [exact Hin | now apply Z.eqb_eq]. }
      rewrite H in Hf. destruct Hf.
    + intros Hno. rewrite filter_none; [reflexivity|].
      intros s Hs. apply Z.eqb_neq. intros Heq. apply Hno. rewrite <- Heq.
      now apply in_map.
  - eauto.
  - intros Hpk s Hin Hid. subst sid. rewrite (select_by_id ss s Hpk Hin).
    simpl. now rewrite sql_hex_upper.
Qed.

Lemma get_song_by_id_found_witness :
  get_song_by_id 7 store_AB = Returned None
  /\ get_song_by_id 2 store_AB = Returned (Some ("B", "0C0D")).
Proof.
  destruct (get_song_by_id_found 7 store_AB [row_A; row_B] eq_refl eq_refl) as (H1 & _).
  destruct (get_song_by_id_found 2 store_AB [row_A; row_B] eq_refl eq_refl) as (_ & _ & H3).
  split.
  - apply H1. simpl. intuition discriminate.
  - apply (H3 ltac:(repeat constructor; simpl; intuition discriminate) row_B);
      [simpl; auto | reflexivity].
Defined.

(** X6: [get_song_by_name].  A name no row carries gives None and raises
    nothing; a name exactly one row carries gives that row's id and its
    digest in upper-case hexadecimal; and after [insert_song name h] has
    returned an id on a table where the name was new, the name gives back
    that id. *)
Theorem get_song_by_name_found name c ss :
  songs c = Some ss ->
  ((forall s, In s ss -> song_name s <> name) ->
     get_song_by_name name c = Returned None)
  /\ (forall pre s post, ss = pre ++ s :: post -> song_name s = name ->
        (forall s', In s' (pre ++ post) -> song_name s' <> name) ->
        get_song_by_name name c
        = Returned (Some (song_id s, Py.upper (Py.hex (file_sha1 s)))))
  /\ (forall h c1 id,
        (forall s, In s ss -> song_name s <> name) ->
        insert_song name h c = (c1, Returned id) ->
        exists b, Py.fromhex h = Some b
          /\ get_song_by_name name c1 = Returned (Some (id, Py.upper (Py.hex b)))).
Proof.
  intros Hss.
  assert (Hnone : forall l, (forall s, In s l -> song_name s <> name) ->
            filter (fun s => String.eqb (song_name s) name) l = []).
  { intros l Hl. apply filter_none. intros s Hs. apply String.eqb_neq. auto. }
  split; [|split].
  - intros Hno. unfold get_song_by_name, Sql.SELECT_SONG_BY_NAME, fetchone.
    rewrite Hss, (Hnone ss Hno). reflexivity.
  - intros pre s post -> Hname Hothers.
    unfold get_song_by_name, Sql.SELECT_SONG_BY_NAME, fetchone. rewrite Hss.
    rewrite filter_app. cbn [filter].
    rewrite (proj2 (String.eqb_eq _ _) Hname).
    rewrite (Hnone pre), (Hnone post); cbn.
    + now rewrite sql_hex_upper.
    + intros s' Hs'. apply Hothers, in_or_app. now right.
    + intros s' Hs'. apply Hothers, in_or_app. now left.
  - intros h c1 id Hno Hins.
    apply insert_song_returned in Hins as (ss0 & b & Hss0 & Hb & Hid & _ & ->).
    assert (ss0 = ss) by congruence. subst ss0.
    exists b. split; [exact Hb|].
    unfold get_song_by_name, Sql.SELECT_SONG_BY_NAME, fetchone.
    cbn [songs with_sequence with_songs].
    rewrite filter_app, (Hnone ss Hno). cbn [filter song_name app].
    rewrite String.eqb_refl. cbn. now rewrite sql_hex_upper.
Qed.

Lemma get_song_by_name_found_witness :
  get_song_by_name "Z" store_AB = Returned None
  /\ get_song_by_name "B" store_AB = Returned (Some (2, "0C0D")).
Proof.
  destruct (get_song_by_name_found "Z" store_AB [row_A; row_B] eq_refl) as (H1 & _).
  destruct (get_song_by_name_found "B" store_AB [row_A; row_B] eq_refl) as (_ & H2 & _).
  split.
  - apply H1. intros s [<- | [<- | []]]; discriminate.
  - apply (H2 [row_A] row_B []); [reflexivity | reflexivity |].
    intros s' [<- | []]. discriminate.
Defined.

(* ================================================================= *)
(** ** Further properties: a recording from creation to restart *)

Section LifecycleFacts.

Lemma init_shape c :
  foreign_keys c = true ->
  c = __init__ (songs c) (sqlite_sequence c) (fingerprints c).
Proof. destruct c; simpl; intros ->; reflexivity. Qed.

(** [setup] on any connection with foreign keys on. *)
Lemma setup_fk c :
  foreign_keys c = true ->
  setup c
  = (__init__ (Some (kept_songs (table (songs c))))
              (match songs c with Some _ => sqlite_sequence c | None => 0 end)
              (Some (kept_fingerprints (table (songs c)) (table (fingerprints c)))),
     Returned tt).
Proof. intros Hfk. rewrite (init_shape c Hfk) at 1. apply setup_init. Qed.

(** [insert_hashes] touches nothing but the fingerprints table, and only
    adds to it. *)
Lemma insert_hashes_frame sid hashes c :
  foreign_keys (fst (insert_hashes sid hashes c)) = foreign_keys c
  /\ songs (fst (insert_hashes sid hashes c)) = songs c
  /\ sqlite_sequence (fst (insert_hashes sid hashes c)) = sqlite_sequence c
  /\ (fingerprints c = None -> fingerprints (fst (insert_hashes sid hashes c)) = None)
  /\ (forall fs, fingerprints c = Some fs ->
        exists added, fingerprints (fst (insert_hashes sid hashes c)) = Some (fs ++ added)).
Proof.
  assert (Hsame : forall fs, fingerprints c = Some fs ->
            exists added, fingerprints c = Some (fs ++ added)).
  { intros fs Hfs. exists []. now rewrite app_nil_r. }
  unfold insert_hashes. destruct (rows_of sid hashes) as [rows|]; [|simpl; auto].
  unfold Sql.INSERT_FINGERPRINT_many, bind.
  destruct (prepare_outcome c) as [-> | ->]; [|simpl; auto].
  destruct (Sql.step_all rows c) as [c' res] eqn:E.
  destruct (step_all_grows rows c c' res E) as [Hnone Hsome].
  assert (Hc' : fst (match res with
                     | Returned _ => Sql.commit c'
                     | Raised e => (c', Raised e)
                     end) = c') by (destruct res; reflexivity).
  rewrite Hc'. destruct (fingerprints c) as [fs|] eqn:Hfs.
  - destruct (Hsome fs eq_refl) as [added ->]. simpl.
    repeat split; try discriminate.
    intros fs0 H0. injection H0 as <-. eauto.
  - rewrite (Hnone eq_refl). rewrite Hfs. repeat split; auto; discriminate.
Qed.

Lemma kept_songs_app ss ss' : kept_songs (ss ++ ss') = kept_songs ss ++ kept_songs ss'.
Proof. apply filter_app. Qed.

(** Rows below an id are not selected by it. *)
Lemma select_above ss id (keep : song -> song) :
  (forall s, song_id (keep s) = song_id s) ->
  Sql.max_rowid ss < id ->
  filter (fun s => song_id s =? id) (kept_songs (map keep ss)) = [].
Proof.
  intros Hkeep Hmax. apply filter_none. intros s Hs. apply Z.eqb_neq.
  apply filter_In in Hs as [Hs _]. apply in_map_iff in Hs as (s0 & <- & Hs0).
  rewrite Hkeep. pose proof (max_rowid_ge ss s0 Hs0). lia.
Qed.

Lemma returned_id_fits ss seq id :
  id = Z.max seq (Sql.max_rowid ss) + 1 -> id <= Sql.max_int64 ->
  Sql.fits_int64 id = true.
Proof.
  intros -> Hmax. pose proof (max_rowid_nonneg ss).
  unfold Sql.fits_int64. apply andb_true_iff.
  split; apply Z.leb_le; unfold Sql.max_int64 in *; lia.
Qed.

End LifecycleFacts.

(** X7: a recording that is created and fed fingerprints but never marked
    does not outlive the next [setup]: whatever [insert_hashes] did or
    raised, after [setup] the id is not found, no fingerprint carries it,
    and no batch makes [return_matches] yield it. *)
Theorem unmarked_recording_purged c name h hashes c1 id :
  foreign_keys c = true ->
  insert_song name h c = (c1, Returned id) ->
  snd (setup (fst (insert_hashes id hashes c1))) = Returned tt
  /\ get_song_by_id id (fst (setup (fst (insert_hashes id hashes c1)))) = Returned None
  /\ (forall f,
        In f (table (fingerprints (fst (setup (fst (insert_hashes id hashes c1)))))) ->
        fp_song_id f <> id)
  /\ (forall batch x,
        In x (fst (return_matches batch (fst (setup (fst (insert_hashes id hashes c1)))))) ->
        fst x <> id).
Proof.
  intros Hfk Hins.
  apply insert_song_returned in Hins as (ss & b & Hss & Hb & Hid & Hmax & ->).
  set (c1 := with_sequence id (with_songs (Some (ss ++ [mkSong id name 0 b])) c)).
  destruct (insert_hashes_frame id hashes c1) as (Hfk2 & Hss2 & _ & _).
  set (c2 := fst (insert_hashes id hashes c1)) in *.
  assert (Hfk2' : foreign_keys c2 = true) by (rewrite Hfk2; exact Hfk).
  rewrite (setup_fk c2 Hfk2'). rewrite Hss2. cbn [fst snd songs c1 with_sequence with_songs table].
  assert (Hgone : forall f,
            In f (kept_fingerprints (ss ++ [mkSong id name 0 b]) (table (fingerprints c2))) ->
            fp_song_id f <> id).
  { intros f Hf Heq. apply filter_In in Hf as [_ Hf]. apply negb_true_iff in Hf.
    assert (Sql.has_id (map song_id (filter (fun s => fingerprinted s =? 0)
                                            (ss ++ [mkSong id name 0 b])))
                       (fp_song_id f) = true); [|congruence].
    apply has_id_In. rewrite Heq. apply in_map_iff.
    exists (mkSong id name 0 b). split; [reflexivity|].
    apply filter_In. split; [apply in_or_app; right; now left | reflexivity]. }
  split; [reflexivity|]. split; [|split].
  - unfold get_song_by_id, Sql.SELECT_SONG, fetchone, __init__, connect. cbn [songs].
    rewrite (returned_id_fits ss _ id Hid Hmax).
    rewrite kept_songs_app. cbn. rewrite app_nil_r.
    rewrite <- (map_id ss) at 1.
    rewrite (select_above ss id (fun s => s)); [reflexivity | reflexivity | lia].
  - exact Hgone.
  - intros batch x Hx. apply return_matches_sound in Hx as (fs & r & q & Hfs & Hr & _ & ->).
    simpl in Hfs. injection Hfs as <-. simpl. exact (Hgone r Hr).
Qed.

Lemma unmarked_recording_purged_witness :
  get_song_by_id 2 (fst (setup (fst (insert_hashes 2 [("aa", 4)] store_A_then_B))))
  = Returned None.
Proof.
  assert (H : insert_song "B" "0c0d" store_A = (store_A_then_B, Returned 2))
    by (vm_compute; reflexivity).
  destruct (unmarked_recording_purged store_A "B" "0c0d" [("aa", 4)]
              store_A_then_B 2 eq_refl H) as (_ & H2 & _).
  exact H2.
Defined.

(** X8: a recording that is created, fed fingerprints and marked outlives
    the next [setup]: marking and [setup] raise nothing, the id is then
    found with its name and digest, and every fingerprint the recording had
    is still stored. *)
Theorem marked_recording_survives c name h hashes c1 id :
  foreign_keys c = true ->
  insert_song name h c = (c1, Returned id) ->
  snd (set_song_fingerprinted id (fst (insert_hashes id hashes c1))) = Returned tt
  /\ snd (setup (fst (set_song_fingerprinted id (fst (insert_hashes id hashes c1)))))
     = Returned tt
  /\ (exists b, Py.fromhex h = Some b
        /\ get_song_by_id id
             (fst (setup (fst (set_song_fingerprinted id (fst (insert_hashes id hashes c1))))))
           = Returned (Some (name, Py.upper (Py.hex b))))
  /\ (forall f,
        In f (table (fingerprints (fst (insert_hashes id hashes c1)))) ->
        fp_song_id f = id ->
        In f (table (fingerprints
                (fst (setup (fst (set_song_fingerprinted id
                                    (fst (insert_hashes id hashes c1))))))))).
Proof.
  intros Hfk Hins.
  apply insert_song_returned in Hins as (ss & b & Hss & Hb & Hid & Hmax & ->).
  set (new := mkSong id name 0 b).
  set (c1 := with_sequence id (with_songs (Some (ss ++ [new])) c)).
  destruct (insert_hashes_frame id hashes c1) as (Hfk2 & Hss2 & _ & _).
  set (c2 := fst (insert_hashes id hashes c1)) in *.
  assert (Hfk2' : foreign_keys c2 = true) by (rewrite Hfk2; exact Hfk).
  assert (Hss2' : songs c2 = Some (ss ++ [new])) by (rewrite Hss2; reflexivity).
  pose proof (returned_id_fits ss _ id Hid Hmax) as Hfit.
  rewrite (set_song_fingerprinted_eq id c2 _ Hss2' Hfit). cbn [fst snd].
  set (c3 := with_songs (Some (map (mark id) (ss ++ [new]))) c2).
  assert (Hfk3 : foreign_keys c3 = true) by exact Hfk2'.
  rewrite (setup_fk c3 Hfk3). cbn [fst snd songs c3 with_songs table fingerprints].
  assert (Hnew : mark id new = mkSong id name 1 b).
  { unfold mark, new. simpl. now rewrite Z.eqb_refl. }
  split; [reflexivity|]. split; [reflexivity|]. split.
  - exists b. split; [exact Hb|].
    unfold get_song_by_id, Sql.SELECT_SONG, fetchone, __init__, connect. cbn [songs].
    rewrite Hfit, map_app, kept_songs_app, filter_app.
    rewrite (select_above ss id (mark id) (mark_id id)) by lia.
    cbn [map]. rewrite Hnew. cbn. rewrite Z.eqb_refl. cbn.
    now rewrite sql_hex_upper.
  - intros f Hf Heq. unfold __init__, connect. cbn [fingerprints table].
    apply filter_In. split; [exact Hf|]. apply negb_true_iff.
    apply not_true_is_false. intros Hgone. apply has_id_In in Hgone.
    apply in_map_iff in Hgone as (s' & Hid' & Hs').
    apply filter_In in Hs' as [Hs' Hflag]. apply Z.eqb_eq in Hflag.
    apply in_map_iff in Hs' as (s0 & <- & _).
    rewrite mark_id in Hid'. revert Hflag. unfold mark.
    rewrite Heq in Hid'. rewrite (proj2 (Z.eqb_eq _ _) Hid'). discriminate.
Qed.

Lemma marked_recording_survives_witness :
  exists b, Py.fromhex "0c0d" = Some b
    /\ get_song_by_id 2
         (fst (setup (fst (set_song_fingerprinted 2
                             (fst (insert_hashes 2 [("aa", 4)] store_A_then_B))))))
       = Returned (Some ("B", Py.upper (Py.hex b))).
Proof.
  assert (H : insert_song "B" "0c0d" store_A = (store_A_then_B, Returned 2))
    by (vm_compute; reflexivity).
  destruct (marked_recording_survives store_A "B" "0c0d" [("aa", 4)]
              store_A_then_B 2 eq_refl H) as (_ & _ & H3 & _).
  exact H3.
Defined.

(** X9: song ids are not reused.  On a connection whose songs table
    exists, an id that [insert_song] returns is above the AUTOINCREMENT
    counter, which then holds it; and [setup] (with its purge),
    [insert_hashes], [insert], [set_song_fingerprinted] and a failing
    [insert_song] leave the counter and the table in place.  So an id
    returned later is above every id returned before, also when the
    earlier recording has been purged. *)
Theorem song_ids_not_reused c ss :
  songs c = Some ss ->
  (forall name h c1 id, insert_song name h c = (c1, Returned id) ->
     sqlite_sequence c < id /\ sqlite_sequence c1 = id /\ songs c1 <> None)
  /\ (forall name h e c1, insert_song name h c = (c1, Raised e) -> c1 = c)
  /\ (sqlite_sequence (fst (setup c)) = sqlite_sequence c
      /\ songs (fst (setup c)) <> None)
  /\ (forall sid hs,
        sqlite_sequence (fst (insert_hashes sid hs c)) = sqlite_sequence c
        /\ songs (fst (insert_hashes sid hs c)) = songs c)
  /\ (forall h sid o,
        sqlite_sequence (fst (insert h sid o c)) = sqlite_sequence c
        /\ songs (fst (insert h sid o c)) = songs c)
  /\ (forall sid,
        sqlite_sequence (fst (set_song_fingerprinted sid c)) = sqlite_sequence c
        /\ songs (fst (set_song_fingerprinted sid c)) <> None).
Proof.
  intros Hss. split; [|split; [|split; [|split; [|split]]]].
  - intros name h c1 id Hins.
    apply insert_song_returned in Hins as (ss0 & b & _ & _ & Hid & _ & ->).
    simpl. split; [lia | split; [reflexivity | discriminate]].
  - intros name h e c1. unfold insert_song, bind, Sql.INSERT_SONG, raise.
    destruct (Py.fromhex h); [|congruence]. rewrite Hss.
    destruct (Sql.max_int64 <=? _); [congruence|].
    destruct (existsb _ ss); [congruence | discriminate].
  - unfold setup, bind, Sql.CREATE_SONGS_TABLE, Sql.CREATE_FINGERPRINTS_TABLE,
      Sql.DELETE_UNFINGERPRINTED, Sql.delete_songs_where.
    rewrite Hss. destruct (fingerprints c); simpl; rewrite Hss; simpl;
      split; [reflexivity | discriminate | reflexivity | discriminate].
  - intros sid hs. destruct (insert_hashes_frame sid hs c) as (_ & H2 & H3 & _). auto.
  - intros h sid o. unfold insert. destruct (Py.fromhex h); [|simpl; auto].
    unfold Sql.INSERT_FINGERPRINT, bind.
    destruct (prepare_outcome c) as [-> | ->]; [|simpl; auto].
    destruct (Sql.step_insert_fingerprint _ c) as [c' [[]|e]] eqn:E.
    + apply step_returned in E as (_ & fs & _ & [[_ ->] | [_ ->]]); simpl; auto.
    + apply step_raised in E. subst c'. auto.
  - intros sid. unfold set_song_fingerprinted, bind, Sql.UPDATE_SONG_FINGERPRINTED.
    rewrite Hss. destruct (Sql.fits_int64 sid); simpl;
      split; try reflexivity; try discriminate. congruence.
Qed.

Lemma song_ids_not_reused_witness :
  sqlite_sequence store_A < 2
  /\ sqlite_sequence (fst (setup store_A_then_B)) = 2
  /\ (forall c1 id, insert_song "C" "0e0f" (fst (setup store_A_then_B)) = (c1, Returned id) ->
        2 < id).
Proof.
  assert (H : insert_song "B" "0c0d" store_A = (store_A_then_B, Returned 2))
    by (vm_compute; reflexivity).
  destruct (song_ids_not_reused store_A [row_A] eq_refl) as (H1 & _).
  destruct (H1 "B" "0c0d" store_A_then_B 2 H) as (Hlt & Hseq & _).
  destruct (song_ids_not_reused store_A_then_B [row_A; row_B] eq_refl)
    as (_ & _ & (H3 & _) & _).
  split; [exact Hlt|]. split; [now rewrite H3|].
  intros c1 id Hins.
  destruct (song_ids_not_reused (fst (setup store_A_then_B)) [row_A] eq_refl) as (H1' & _).
  destruct (H1' "C" "0e0f" c1 id Hins) as (Hlt' & _).
  rewrite H3, Hseq in Hlt'. exact Hlt'.
Defined.

(* ================================================================= *)
(** ** Further properties: what ingestion writes *)

Section AddedFacts.

(** What the rows run so far have added: rows of the batch, each new to
    the table, none twice. *)
Lemma step_all_added rows : forall c c' res fs,
  Sql.step_all rows c = (c', res) -> fingerprints c = Some fs ->
  exists added,
    c' = with_fingerprints (Some (fs ++ added)) c
    /\ incl added rows
    /\ (List.length added <= List.length rows)%nat
    /\ (forall f, In f added -> ~ In f fs)
    /\ NoDup added.
Proof.
  induction rows as [|r rows IH]; intros c c' res fs H Hfs.
  - injection H as <- <-. exists []. rewrite app_nil_r.
    repeat split; auto using incl_nil_l, NoDup_nil.
    destruct c; simpl in *; now subst.
  - cbn [Sql.step_all] in H. unfold bind in H.
    destruct (Sql.step_insert_fingerprint r c) as [c1 [[]|e]] eqn:E.
    + apply step_returned in E as (_ & fs0 & Hfs0 & Hcase).
      assert (fs0 = fs) by congruence. subst fs0.
      destruct Hcase as [[Hin ->] | [Hnin ->]].
      * destruct (IH c c' res fs H Hfs) as (added & -> & Hincl & Hlen & Hnew & Hnd).
        exists added. repeat split; auto using incl_tl. simpl. lia.
      * destruct (IH _ c' res (fs ++ [r]) H eq_refl)
          as (added & -> & Hincl & Hlen & Hnew & Hnd).
        exists (r :: added). split; [|split; [|split; [|split]]].
        -- unfold with_fingerprints. simpl. now rewrite <- app_assoc.
        -- intros f [<- | Hf]; [now left | right; auto].
        -- simpl. lia.
        -- intros f [<- | Hf]; [exact Hnin|].
           intros Hin. apply (Hnew f Hf). apply in_or_app. now left.
        -- constructor; [|exact Hnd]. intros Hin. apply (Hnew r Hin).
           apply in_or_app. right. now left.
    + apply step_raised in E. injection H as <- <-. subst c1.
      exists []. rewrite app_nil_r.
      repeat split; auto using incl_nil_l, NoDup_nil; [|simpl; lia].
      destruct c; simpl in *; now subst.
Qed.

Lemma rows_of_length sid hashes : forall rows,
  rows_of sid hashes = Some rows -> List.length rows = List.length hashes.
Proof.
  induction hashes as [|[h o] hashes IH]; simpl; intros rows H.
  - now injection H as <-.
  - destruct (Py.fromhex h); [|discriminate].
    destruct (rows_of sid hashes) as [rows'|]; [|discriminate].
    injection H as <-. simpl. now rewrite (IH rows' eq_refl).
Qed.

Lemma rows_of_None sid hashes :
  rows_of sid hashes = None <-> exists h o, In (h, o) hashes /\ Py.fromhex h = None.
Proof.
  induction hashes as [|[h o] hashes IH]; simpl.
  - split; [discriminate | intros (? & ? & [] & _)].
  - destruct (Py.fromhex h) as [b|] eqn:E.
    + destruct (rows_of sid hashes) as [rows|].
      * split; [discriminate|]. intros (h' & o' & [Heq | Hin] & Hn).
        -- injection Heq as <- <-. congruence.
        -- assert (Some rows = None); [apply IH; eauto | discriminate].
      * split; [|reflexivity]. intros _.
        destruct (proj1 IH eq_refl) as (h' & o' & Hin & Hn). eauto.
    + split; [|reflexivity]. intros _. exists h, o. auto.
Qed.

End AddedFacts.

(** X10: what [insert_hashes] writes, on any connection with a
    fingerprints table and whatever the outcome.  The table afterwards is
    the table before followed by the added rows; these are new to the
    table, pairwise different, at most one per pair of the batch, and each
    is a pair of the batch under the given song_id; nothing else on the
    connection changes, and [get_num_fingerprints] grows by their number. *)
Theorem insert_hashes_adds sid hashes c fs :
  fingerprints c = Some fs ->
  exists added,
    fst (insert_hashes sid hashes c) = with_fingerprints (Some (fs ++ added)) c
    /\ (forall f, In f added ->
          ~ In f fs /\ fp_song_id f = sid
          /\ exists h, In (h, offset f) hashes /\ Py.fromhex h = Some (hash f))
    /\ NoDup added
    /\ (List.length added <= List.length hashes)%nat
    /\ (unique_fingerprints fs -> unique_fingerprints (fs ++ added))
    /\ get_num_fingerprints (fst (insert_hashes sid hashes c))
       = Returned (Z.of_nat (List.length fs) + Z.of_nat (List.length added)).
Proof.
  intros Hfs.
  assert (Hnothing : exists added,
            c = with_fingerprints (Some (fs ++ added)) c
            /\ (forall f, In f added ->
                  ~ In f fs /\ fp_song_id f = sid
                  /\ exists h, In (h, offset f) hashes /\ Py.fromhex h = Some (hash f))
            /\ NoDup added
            /\ (List.length added <= List.length hashes)%nat
            /\ (unique_fingerprints fs -> unique_fingerprints (fs ++ added))
            /\ get_num_fingerprints c
               = Returned (Z.of_nat (List.length fs) + Z.of_nat (List.length added))).
  { exists []. rewrite app_nil_r. split; [destruct c; simpl in *; now subst|].
    split; [intros f []|]. split; [constructor|]. split; [simpl; lia|].
    split; [auto|]. unfold get_num_fingerprints, Sql.SELECT_NUM_FINGERPRINTS.
    rewrite Hfs. simpl. f_equal. lia. }
  unfold insert_hashes. destruct (rows_of sid hashes) as [rows|] eqn:Hrows;
    [|exact Hnothing].
  unfold Sql.INSERT_FINGERPRINT_many, bind.
  destruct (prepare_outcome c) as [-> | ->]; [|exact Hnothing].
  destruct (Sql.step_all rows c) as [c' res] eqn:E.
  destruct (step_all_added rows c c' res fs E Hfs)
    as (added & -> & Hincl & Hlen & Hnew & Hnd).
  assert (Hc' : forall c0, fst (match res with
                     | Returned _ => Sql.commit c0
                     | Raised e => (c0, Raised e)
                     end) = c0) by (intros; destruct res; reflexivity).
  rewrite Hc'. exists added. split; [reflexivity|]. split; [|split; [|split; [|split]]].
  - intros f Hf. split; [exact (Hnew f Hf)|].
    apply (rows_of_In sid hashes rows Hrows), Hincl, Hf.
  - exact Hnd.
  - rewrite <- (rows_of_length sid hashes rows Hrows). exact Hlen.
  - intros Hu. apply NoDup_app; auto. intros f Hf Hf'. exact (Hnew f Hf' Hf).
  - unfold get_num_fingerprints, Sql.SELECT_NUM_FINGERPRINTS. simpl.
    rewrite length_app. f_equal. lia.
Qed.

Lemma insert_hashes_adds_witness :
  exists added,
    fst (insert_hashes 1 [("aa", 10); ("cc", 30); ("CC", 30)] store_A)
      = with_fingerprints (Some ([fp_A_aa; fp_A_bb] ++ added)) store_A
    /\ NoDup added
    /\ (List.length added <= 3)%nat.
Proof.
  destruct (insert_hashes_adds 1 [("aa", 10); ("cc", 30); ("CC", 30)] store_A
              [fp_A_aa; fp_A_bb] eq_refl) as (added & H1 & _ & H3 & H4 & _).
  exists added. auto.
Defined.

(** X11: [insert_hashes] converts the whole batch before it writes: when
    some hash of the batch is not hexadecimal, it raises ValueError and the
    connection is as before, also for the pairs that come first. *)
Theorem insert_hashes_validates_first sid hashes c h o :
  In (h, o) hashes -> Py.fromhex h = None ->
  insert_hashes sid hashes c = (c, Raised ValueError).
Proof.
  intros Hin Hbad. unfold insert_hashes.
  rewrite (proj2 (rows_of_None sid hashes)); [reflexivity|]. eauto.
Qed.

Lemma insert_hashes_validates_first_witness :
  insert_hashes 1 [("cc", 30); ("xyz", 31)] store_A = (store_A, Raised ValueError).
Proof.
  apply (insert_hashes_validates_first 1 [("cc", 30); ("xyz", 31)] store_A "xyz" 31).
  - simpl; auto.
  - reflexivity.
Defined.

(** X12: where the integers of a later pair do not fit, it is otherwise:
    [executemany] has inserted the pairs before it when OverflowError is
    raised, and they stay. *)
Theorem insert_hashes_overflow_keeps_prefix sid c ss fs h o b h2 o2 b2 rest :
  songs c = Some ss -> fingerprints c = Some fs ->
  In sid (map song_id ss) ->
  Py.fromhex h = Some b -> Py.fromhex h2 = Some b2 ->
  rows_of sid rest <> None ->
  Sql.fits_int64 sid = true -> Sql.fits_int64 o = true -> Sql.fits_int64 o2 = false ->
  ~ In (mkFingerprint b sid o) fs ->
  insert_hashes sid ((h, o) :: (h2, o2) :: rest) c
  = (with_fingerprints (Some (fs ++ [mkFingerprint b sid o])) c, Raised OverflowError).
Proof.
  intros Hss Hfs Hsid Hb Hb2 Hrest Hfs1 Hfo Hfo2 Hnew.
  unfold insert_hashes. cbn [rows_of]. rewrite Hb, Hb2.
  destruct (rows_of sid rest) as [rows|]; [|congruence].
  unfold Sql.INSERT_FINGERPRINT_many, bind, Sql.prepare_insert_fingerprint.
  rewrite Hfs, Hss, orb_true_r. cbn [Sql.step_all]. unfold bind.
  unfold Sql.step_insert_fingerprint at 1. cbn [fp_song_id offset].
  rewrite Hfs1, Hfo, Hfs, Hss. cbn [andb negb].
  destruct (existsb _ fs) eqn:E;
    [apply existsb_fingerprint in E; contradiction|].
  rewrite (proj2 (has_id_In _ _) Hsid), andb_false_r.
  unfold Sql.step_insert_fingerprint. cbn [fp_song_id offset].
  rewrite Hfs1, Hfo2. reflexivity.
Qed.

Lemma insert_hashes_overflow_keeps_prefix_witness :
  insert_hashes 1 [("cc", 30); ("dd", 9223372036854775808)] store_A
  = (with_fingerprints (Some ([fp_A_aa; fp_A_bb] ++ [mkFingerprint [xcc] 1 30])) store_A,
     Raised OverflowError).
Proof.
  apply (insert_hashes_overflow_keeps_prefix 1 store_A [row_A] [fp_A_aa; fp_A_bb]
           "cc" 30 [xcc] "dd" 9223372036854775808 [xdd] []);
    try reflexivity.
  - simpl; auto.
  - discriminate.
  - simpl. intuition discriminate.
Defined.

(* ================================================================= *)
(** ** Further properties: how the methods compose *)

(** On the connection itself, [insert] is [insert_hashes] with a batch of
    one pair: the same tables afterwards and the same outcome ([insert]
    leaves out the commit, which the connection does not see). *)
Lemma insert_is_insert_hashes_of_one h sid o c :
  insert h sid o c = insert_hashes sid [(h, o)] c.
Proof.
  unfold insert, insert_hashes. cbn [rows_of].
  destruct (Py.fromhex h) as [b|]; [|reflexivity].
  unfold Sql.INSERT_FINGERPRINT, Sql.INSERT_FINGERPRINT_many, bind.
  destruct (Sql.prepare_insert_fingerprint c) as [c0 [[]|e]]; [|reflexivity].
  cbn [Sql.step_all]. unfold bind.
  destruct (Sql.step_insert_fingerprint _ c0) as [c1 [[]|e]]; reflexivity.
Qed.

Section CaseFacts.

Lemma mapper_from_upper hashes : forall m,
  mapper_from m (upper_batch hashes) = mapper_from m hashes.
Proof.
  induction hashes as [|[h o] hashes IH]; intros m; [reflexivity|].
  cbn [upper_batch map fst snd]. fold (upper_batch hashes).
  rewrite !mapper_from_cons, upper_idem. apply IH.
Qed.

Lemma rows_of_upper sid hashes :
  rows_of sid (upper_batch hashes) = rows_of sid hashes.
Proof.
  induction hashes as [|[h o] hashes IH]; [reflexivity|].
  cbn [upper_batch map fst snd rows_of]. fold (upper_batch hashes).
  now rewrite fromhex_upper, IH.
Qed.

End CaseFacts.

Section FrameFacts.

Lemma query_chunks_same_table mapper chunks c c' :
  fingerprints c = fingerprints c' ->
  query_chunks mapper chunks c = query_chunks mapper chunks c'.
Proof.
  intros Heq. induction chunks as [|chunk chunks IH]; [reflexivity|].
  cbn [query_chunks]. rewrite IH.
  unfold query_chunk, Sql.SELECT_MULTIPLE. now rewrite Heq.
Qed.

Lemma insert_song_fingerprints name h c :
  fingerprints (fst (insert_song name h c)) = fingerprints c.
Proof.
  unfold insert_song, bind, Sql.INSERT_SONG, raise.
  destruct (Py.fromhex h); [|reflexivity].
  destruct (songs c) as [ss|]; [|reflexivity].
  destruct (Sql.max_int64 <=? _); [reflexivity|].
  destruct (existsb _ ss); reflexivity.
Qed.

Lemma set_song_fingerprinted_fingerprints sid c :
  fingerprints (fst (set_song_fingerprinted sid c)) = fingerprints c.
Proof.
  unfold set_song_fingerprinted, bind, Sql.UPDATE_SONG_FINGERPRINTED.
  destruct (songs c) as [ss|]; [|reflexivity].
  destruct (Sql.fits_int64 sid); reflexivity.
Qed.

End FrameFacts.

(** X14: [return_matches] reads the fingerprints table and nothing else:
    connections with the same fingerprints table give the same run.  So it
    does not look at the fingerprinted flag: the fingerprints of a recording
    are matched as soon as they are inserted, and [set_song_fingerprinted]
    and [insert_song] do not change what a batch yields. *)
Theorem return_matches_reads_fingerprints_only hashes c :
  (forall c', fingerprints c = fingerprints c' ->
     return_matches hashes c = return_matches hashes c')
  /\ (forall sid,
        return_matches hashes (fst (set_song_fingerprinted sid c)) = return_matches hashes c)
  /\ (forall name h,
        return_matches hashes (fst (insert_song name h c)) = return_matches hashes c).
Proof.
  split; [|split].
  - intros c' Heq. now apply query_chunks_same_table.
  - intros sid. apply query_chunks_same_table, set_song_fingerprinted_fingerprints.
  - intros name h. apply query_chunks_same_table, insert_song_fingerprints.
Qed.

Lemma return_matches_reads_fingerprints_only_witness :
  return_matches [("aa", 3)] store_AB
  = return_matches [("aa", 3)]
      (__init__ None 0 (Some [fp_A_aa; fp_A_bb; fp_B_aa])).
Proof.
  apply (proj1 (return_matches_reads_fingerprints_only [("aa", 3)] store_AB)).
  reflexivity.
Defined.

Section ShiftFacts.

Variable d : Z.

Lemma shift_dict_set k v m :
  Py.dict_set k (v + d) (shift_dict d m) = shift_dict d (Py.dict_set k v m).
Proof.
  induction m as [|[k' v'] m IH]; [reflexivity|].
  cbn [shift_dict map Py.dict_set fst snd].
  destruct (String.eqb k' k); [reflexivity|].
  cbn [map fst snd]. f_equal. exact IH.
Qed.

Lemma shift_dict_get k m :
  Py.dict_get k (shift_dict d m) = option_map (fun q => q + d) (Py.dict_get k m).
Proof.
  induction m as [|[k' v'] m IH]; [reflexivity|].
  cbn [shift_dict map Py.dict_get fst snd].
  destruct (String.eqb k' k); [reflexivity | exact IH].
Qed.

Lemma shift_dict_keys m : Py.keys (shift_dict d m) = Py.keys m.
Proof.
  unfold Py.keys, shift_dict. rewrite map_map. apply map_ext. reflexivity.
Qed.

Lemma mapper_from_shift hashes : forall m,
  mapper_from (shift_dict d m) (shift_batch d hashes)
  = shift_dict d (mapper_from m hashes).
Proof.
  induction hashes as [|[h o] hashes IH]; intros m; [reflexivity|].
  cbn [shift_batch map fst snd]. fold (shift_batch d hashes).
  rewrite !mapper_from_cons, shift_dict_set. apply IH.
Qed.

Lemma yield_rows_shift m rows :
  yield_rows (shift_dict d m) rows = shift_yielded d (yield_rows m rows).
Proof.
  induction rows as [|r rows IH]; [reflexivity|].
  cbn [yield_rows]. rewrite shift_dict_get, IH.
  destruct (Py.dict_get _ m) as [q|]; [|reflexivity].
  destruct (yield_rows m rows) as [out res].
  unfold shift_yielded. cbn. do 2 f_equal. f_equal. lia.
Qed.

Lemma query_chunk_shift m chunk c :
  query_chunk (shift_dict d m) chunk c = shift_yielded d (query_chunk m chunk c).
Proof.
  unfold query_chunk. destruct (fromhex_all chunk); [|reflexivity].
  destruct (Sql.SELECT_MULTIPLE _ c); [apply yield_rows_shift | reflexivity].
Qed.

Lemma query_chunks_shift m chunks c :
  query_chunks (shift_dict d m) chunks c = shift_yielded d (query_chunks m chunks c).
Proof.
  induction chunks as [|chunk chunks IH]; [reflexivity|].
  cbn [query_chunks]. rewrite query_chunk_shift, IH.
  destruct (query_chunk m chunk c) as [out [[]|e]]; [|reflexivity].
  destruct (query_chunks m chunks c) as [out' res].
  unfold shift_yielded. cbn. now rewrite map_app.
Qed.

End ShiftFacts.

(** X15: moving every offset of the batch by [d] moves every yielded
    offset difference by [- d] and changes nothing else: the same rows are
    found, in the same order, and the run ends the same way. *)
Theorem return_matches_shift d hashes c :
  return_matches (shift_batch d hashes) c
  = shift_yielded d (return_matches hashes c).
Proof.
  unfold return_matches, mapper_of.
  change (@nil (string * Z)) with (shift_dict d []) at 1 2.
  rewrite mapper_from_shift, shift_dict_keys. apply query_chunks_shift.
Qed.

(** X16: what is ingested is found.  After [insert_hashes sid hashes] for
    a stored recording, with hashes made of digit pairs and integers that
    fit, a query for a non-empty hash [h] of the batch, in any case of its
    digits, with offset [q] ends without an exception and yields
    [(sid, o - q)] for the offset [o] it was inserted with. *)
Theorem ingest_then_match c ss fs sid hashes h o h' q :
  songs c = Some ss -> fingerprints c = Some fs ->
  In sid (map song_id ss) -> Sql.fits_int64 sid = true ->
  hex_batch hashes ->
  (forall h0 o0, In (h0, o0) hashes -> Sql.fits_int64 o0 = true) ->
  In (h, o) hashes -> h <> EmptyString ->
  Py.upper h' = Py.upper h ->
  snd (insert_hashes sid hashes c) = Returned tt
  /\ snd (return_matches [(h', q)] (fst (insert_hashes sid hashes c))) = Returned tt
  /\ In (sid, o - q) (fst (return_matches [(h', q)] (fst (insert_hashes sid hashes c)))).
Proof.
  intros Hss Hfs Hsid Hfit Hhex Hfits Hin Hne Hup.
  assert (Hrows : exists rows, rows_of sid hashes = Some rows).
  { destruct (rows_of sid hashes) as [rows|] eqn:E; [eauto|].
    apply rows_of_None in E as (h0 & o0 & Hin0 & Hbad).
    destruct (fromhex_hexdigits h0 (Hhex h0 o0 Hin0)) as (b0 & Hb0 & _). congruence. }
  destruct Hrows as [rows Hrows].
  assert (Hrun : insert_hashes sid hashes c
                 = (with_fingerprints (Some (absorb fs rows)) c, Returned tt)).
  { unfold insert_hashes. rewrite Hrows.
    unfold Sql.INSERT_FINGERPRINT_many, bind, Sql.prepare_insert_fingerprint.
    rewrite Hfs, Hss, orb_true_r.
    rewrite (step_all_ok rows c ss fs Hss Hfs); [reflexivity|].
    intros r Hr. apply (rows_of_In sid hashes rows Hrows) in Hr as (Hs & h0 & Hin0 & _).
    rewrite Hs, Hfit, (Hfits h0 _ Hin0). auto. }
  rewrite Hrun. cbn [fst snd]. split; [reflexivity|].
  destruct (fromhex_hexdigits h (Hhex h o Hin)) as (b & Hb & Hub).
  assert (Hd' : hexdigits h' = true).
  { rewrite <- hexdigits_upper, Hup, hexdigits_upper. exact (Hhex h o Hin). }
  assert (Hb' : Py.fromhex h' = Some b).
  { now rewrite <- fromhex_upper, Hup, fromhex_upper. }
  assert (Hbatch : hex_batch [(h', q)]).
  { intros h0 o0 [H0 | []]. now injection H0 as <- <-. }
  destruct (return_matches_hex [(h', q)]
              (with_fingerprints (Some (absorb fs rows)) c) (absorb fs rows)
              Hbatch eq_refl) as [Hres Hiff].
  split; [exact Hres|]. apply Hiff.
  exists (mkFingerprint b sid o), (Py.upper h'), q.
  split; [|split; [|split; [|split; [|split]]]].
  - apply absorb_In. right. apply (rows_of_In sid hashes rows Hrows).
    split; [reflexivity|]. exists h. auto.
  - apply mapper_of_keys. exists h', q. split; [now left | reflexivity].
  - rewrite Hup. now apply upper_truthy.
  - now rewrite fromhex_upper.
  - apply (mapper_of_last [] h' q []). intros ? ? [].
  - reflexivity.
Qed.

Lemma ingest_then_match_witness :
  In (1, 30 - 8)
     (fst (return_matches [("CC", 8)]
             (fst (insert_hashes 1 [("aa", 10); ("cc", 30)] store_A)))).
Proof.
  apply (ingest_then_match store_A [row_A] [fp_A_aa; fp_A_bb] 1
           [("aa", 10); ("cc", 30)] "cc" 30 "CC" 8); try reflexivity.
  - simpl; auto.
  - intros h0 o0 [H | [H | []]]; injection H as <- <-; reflexivity.
  - intros h0 o0 [H | [H | []]]; injection H as <- <-; reflexivity.
  - simpl; auto.
  - discriminate.
Defined.

(* ================================================================= *)
(** ** Further properties: the counts *)

Section CountFacts.

Lemma num_songs_eq c ss :
  songs c = Some ss -> primary_key ss ->
  get_num_songs c
  = Returned (Z.of_nat (List.length (filter (fun s => fingerprinted s =? 1) ss))).
Proof.
  intros Hss Hpk. unfold get_num_songs, Sql.SELECT_UNIQUE_SONG_IDS. rewrite Hss.
  rewrite nodup_fixed_point by now apply unique_column_filter.
  now rewrite length_map.
Qed.

(** Marking the one row of an id that is not marked adds one marked row. *)
Lemma mark_counts ss s :
  primary_key ss -> In s ss -> fingerprinted s <> 1 ->
  List.length (filter (fun s' => fingerprinted s' =? 1) (map (mark (song_id s)) ss))
  = S (List.length (filter (fun s' => fingerprinted s' =? 1) ss)).
Proof.
  unfold primary_key. induction ss as [|s0 ss IH]; intros Hpk Hin Hflag; [destruct Hin|].
  cbn [map] in Hpk. apply NoDup_cons_iff in Hpk as [Hfresh Hpk].
  cbn [map filter]. destruct Hin as [-> | Hin].
  - assert (Hrest : map (mark (song_id s)) ss = ss).
    { rewrite <- (map_id ss) at 2. apply map_ext_in. intros s' Hs'.
      apply mark_other. intros Heq. apply Hfresh. rewrite <- Heq. now apply in_map. }
    rewrite Hrest. unfold mark at 1. rewrite Z.eqb_refl. cbn.
    now rewrite (proj2 (Z.eqb_neq _ _) Hflag).
  - assert (Hne : song_id s0 <> song_id s).
    { intros Heq. apply Hfresh. rewrite Heq. now apply in_map. }
    rewrite (mark_other _ _ Hne).
    destruct (fingerprinted s0 =? 1); cbn [List.length]; now rewrite IH.
Qed.

End CountFacts.

(** X17: [get_num_songs] under PRIMARY KEY is the number of rows with
    fingerprinted = 1.  [insert_song] does not change it, nor does [setup]
    with foreign keys on; [set_song_fingerprinted] on a stored recording
    that is not marked yet raises it by one. *)
Theorem num_songs_counts c ss :
  songs c = Some ss -> primary_key ss ->
  get_num_songs c
  = Returned (Z.of_nat (List.length (filter (fun s => fingerprinted s =? 1) ss)))
  /\ (forall name h, get_num_songs (fst (insert_song name h c)) = get_num_songs c)
  /\ (foreign_keys c = true -> get_num_songs (fst (setup c)) = get_num_songs c)
  /\ (forall s n, In s ss -> fingerprinted s <> 1 ->
        Sql.fits_int64 (song_id s) = true ->
        get_num_songs c = Returned n ->
        get_num_songs (fst (set_song_fingerprinted (song_id s) c)) = Returned (n + 1)).
Proof.
  intros Hss Hpk. split; [now apply num_songs_eq|]. split; [|split].
  - intros name h. unfold insert_song, bind, Sql.INSERT_SONG, raise.
    destruct (Py.fromhex h); [|reflexivity]. rewrite Hss.
    destruct (Sql.max_int64 <=? _); [reflexivity|].
    destruct (existsb _ ss); [reflexivity|].
    unfold get_num_songs, Sql.SELECT_UNIQUE_SONG_IDS. cbn. rewrite Hss.
    rewrite filter_app. cbn. now rewrite app_nil_r.
  - intros Hfk. rewrite (setup_fk c Hfk). rewrite Hss.
    unfold get_num_songs, Sql.SELECT_UNIQUE_SONG_IDS. cbn. rewrite Hss.
    unfold kept_songs. rewrite filter_filter_absorb; [reflexivity|].
    intros s _ Hs. apply Z.eqb_eq in Hs. rewrite Hs. reflexivity.
  - intros s n Hin Hflag Hfit Hn.
    rewrite (num_songs_eq c ss Hss Hpk) in Hn. injection Hn as <-.
    rewrite (set_song_fingerprinted_eq _ c ss Hss Hfit). cbn [fst].
    rewrite (num_songs_eq (with_songs (Some (map (mark (song_id s)) ss)) c)
               (map (mark (song_id s)) ss) eq_refl).
    + rewrite (mark_counts ss s Hpk Hin Hflag). f_equal. lia.
    + unfold primary_key. rewrite map_map.
      rewrite (map_ext _ song_id); [exact Hpk | apply mark_id].
Qed.

Lemma num_songs_counts_witness :
  get_num_songs store_AB = Returned 1
  /\ get_num_songs (fst (set_song_fingerprinted 2 store_AB)) = Returned (1 + 1).
Proof.
  assert (Hpk : primary_key [row_A; row_B])
    by (repeat constructor; simpl; intuition discriminate).
  destruct (num_songs_counts store_AB [row_A; row_B] eq_refl Hpk) as (H1 & _ & _ & H4).
  split; [exact H1|].
  apply (H4 row_B 1); [simpl; auto | discriminate | reflexivity | exact H1].
Defined.

(** X18: the constraints of the schema as an invariant: PRIMARY KEY
    (song_id), UNIQUE (file_sha1) and UNIQUE (hash, song_id, offset) hold
    on a new file, and [setup], [empty], [insert_song], [insert],
    [insert_hashes] and [set_song_fingerprinted] each keep them, whatever
    their arguments and whether they raise or not. *)
Theorem schema_constraints_invariant :
  (forall seq, schema_ok (__init__ None seq None))
  /\ keeps_schema setup /\ keeps_schema empty
  /\ (forall name fh, keeps_schema (insert_song name fh))
  /\ (forall h s o, keeps_schema (insert h s o))
  /\ (forall s hs, keeps_schema (insert_hashes s hs))
  /\ (forall s, keeps_schema (set_song_fingerprinted s)).
Proof.
  destruct schema_kept as (H1 & H2 & H3 & H4 & H5 & H6 & H7 & _).
  exact (conj H1 (conj H2 (conj H3 (conj H4 (conj H5 (conj H6 H7)))))).
Qed.

Lemma schema_constraints_invariant_witness :
  schema_ok (fst (insert_hashes 1 [("aa", 10); ("cc", 30); ("CC", 30)]
                    (fst (insert_song "A" "0a0b" (fst (setup (__init__ None 0 None))))))).
Proof.
  destruct schema_constraints_invariant as (H1 & H2 & _ & H4 & _ & H6 & _).
  apply H6, H4, H2, H1.
Defined.

(* ================================================================= *)
(** ** Further properties: one pair per stored row *)

Section OnceFacts.

Variable mapper : Py.dict.

Lemma yield_rows_map rows :
  snd (yield_rows mapper rows) = Returned tt ->
  fst (yield_rows mapper rows) = map (pair_of mapper) rows.
Proof.
  induction rows as [|r rows IH]; [reflexivity|].
  cbn [yield_rows map]. unfold pair_of at 1.
  destruct (Py.dict_get _ mapper) as [q|]; [|discriminate].
  destruct (yield_rows mapper rows) as [out res]. cbn in *.
  intros Hres. now rewrite (IH Hres).
Qed.

Lemma hash_in_params chunk : forall params r,
  fromhex_all chunk = Some params ->
  existsb (Sql.bytes_eqb (hash r)) params = hash_in chunk r.
Proof.
  induction chunk as [|k chunk IH]; cbn [fromhex_all]; intros params r H.
  - now injection H as <-.
  - unfold hash_in. cbn [existsb]. destruct (Py.fromhex k) as [b|]; [|discriminate].
    destruct (fromhex_all chunk) as [bs|]; [|discriminate].
    injection H as <-. cbn [existsb]. f_equal. now apply IH.
Qed.

Lemma query_chunk_map chunk c fs :
  fingerprints c = Some fs ->
  snd (query_chunk mapper chunk c) = Returned tt ->
  fst (query_chunk mapper chunk c) = map (pair_of mapper) (filter (hash_in chunk) fs).
Proof.
  intros Hfs. unfold query_chunk, Sql.SELECT_MULTIPLE. rewrite Hfs.
  destruct (fromhex_all chunk) as [params|] eqn:Ep; [|discriminate].
  intros Hres. rewrite (yield_rows_map _ Hres). f_equal.
  apply filter_ext. intros r. now apply hash_in_params.
Qed.

Lemma query_chunks_length chunks c fs :
  fingerprints c = Some fs ->
  snd (query_chunks mapper chunks c) = Returned tt ->
  List.length (fst (query_chunks mapper chunks c))
  = list_sum (map (fun chunk => List.length (filter (hash_in chunk) fs)) chunks).
Proof.
  intros Hfs. induction chunks as [|chunk chunks IH]; [reflexivity|].
  cbn [query_chunks map list_sum].
  pose proof (query_chunk_map chunk c fs Hfs) as Hmap.
  destruct (query_chunk mapper chunk c) as [out [[]|e]]; [|discriminate].
  destruct (query_chunks mapper chunks c) as [out' res]. cbn in *.
  intros Hres. rewrite length_app, (IH Hres), (Hmap eq_refl), length_map.
  reflexivity.
Qed.

End OnceFacts.

Section PartitionFacts.

Lemma filter_orb_length {T} (p q : T -> bool) (rows : list T) :
  (forall r, In r rows -> p r = true -> q r = true -> False) ->
  List.length (filter (fun r => p r || q r) rows)
  = (List.length (filter p rows) + List.length (filter q rows))%nat.
Proof.
  induction rows as [|r rows IH]; intros Hdis; [reflexivity|].
  cbn [filter]. assert (IH' := IH (fun r' Hr' => Hdis r' (or_intror Hr'))).
  pose proof (Hdis r (or_introl eq_refl)) as Hr.
  destruct (p r), (q r); cbn [orb List.length]; try lia;
    exfalso; now apply Hr.
Qed.

Lemma hash_in_app a b r : hash_in (a ++ b) r = hash_in a r || hash_in b r.
Proof. apply existsb_app. Qed.

Lemma hash_in_true chunk r :
  hash_in chunk r = true <-> exists k, In k chunk /\ Py.fromhex k = Some (hash r).
Proof.
  unfold hash_in. rewrite existsb_exists. split; intros (k & Hk & H); exists k;
    (split; [exact Hk|]).
  - destruct (Py.fromhex k) as [b|]; [|discriminate].
    apply bytes_eqb_eq in H. now subst.
  - rewrite H. now apply bytes_eqb_eq.
Qed.

Lemma NoDup_app_disjoint {T} (a b : list T) x :
  NoDup (a ++ b) -> In x a -> In x b -> False.
Proof.
  induction a as [|y a IH]; cbn; intros Hnd Ha Hb; [destruct Ha|].
  apply NoDup_cons_iff in Hnd as [Hy Hnd]. destruct Ha as [-> | Ha].
  - apply Hy, in_or_app. now right.
  - now apply IH.
Qed.

(** Chunks that share no string, of strings that denote different bytes,
    select every row for at most one of them. *)
Lemma chunks_partition (fs : list fingerprint) chunks :
  NoDup (List.concat chunks) ->
  (forall k k' b, In k (List.concat chunks) -> In k' (List.concat chunks) ->
     Py.fromhex k = Some b -> Py.fromhex k' = Some b -> k = k') ->
  list_sum (map (fun chunk => List.length (filter (hash_in chunk) fs)) chunks)
  = List.length (filter (hash_in (List.concat chunks)) fs).
Proof.
  induction chunks as [|chunk chunks IH]; intros Hnd Hinj.
  - cbn. induction fs as [|r rows IHr]; [reflexivity | exact IHr].
  - unfold list_sum in *. cbn [List.concat map fold_right] in *.
    rewrite (filter_ext (hash_in (chunk ++ List.concat chunks))
               (fun r => hash_in chunk r || hash_in (List.concat chunks) r))
      by (intros r; apply hash_in_app).
    rewrite filter_orb_length.
    + rewrite IH; [reflexivity | |].
      * now apply NoDup_app_remove_l in Hnd.
      * intros k k' b Hk Hk'. apply Hinj; apply in_or_app; now right.
    + intros r _ Hp Hq.
      apply hash_in_true in Hp as (k & Hk & Hfk).
      apply hash_in_true in Hq as (k' & Hk' & Hfk').
      assert (k = k').
      { apply (Hinj k k' (hash r)); auto; apply in_or_app; auto. }
      subst k'. exact (NoDup_app_disjoint _ _ k Hnd Hk Hk').
Qed.

End PartitionFacts.

(** X19: one pair per stored row.  For a batch of non-empty digit pairs
    and a connection with a fingerprints table, [return_matches] yields as
    many pairs as there are stored rows whose hash a hash of the batch
    denotes: chunking makes no row count twice, and no such row is left
    out. *)
Theorem return_matches_counts_rows_once hashes c fs :
  hex_batch hashes ->
  (forall h o, In (h, o) hashes -> h <> EmptyString) ->
  fingerprints c = Some fs ->
  List.length (fst (return_matches hashes c))
  = List.length (filter (hash_in (Py.keys (mapper_of hashes))) fs).
Proof.
  intros Hb Hne Hfs.
  destruct (return_matches_hex hashes c fs Hb Hfs) as [Hres _].
  unfold return_matches in *.
  rewrite (query_chunks_length _ _ c fs Hfs Hres).
  assert (Hcat : List.concat (grouper (Py.keys (mapper_of hashes)) 999)
                 = Py.keys (mapper_of hashes)).
  { rewrite grouper_concat by lia. apply filter_all, keys_truthy, Hne. }
  rewrite chunks_partition; rewrite Hcat.
  - reflexivity.
  - apply mapper_of_NoDup.
  - intros k k' b Hk Hk' Hfk Hfk'.
    destruct (hex_batch_keys hashes k Hb Hk) as (Hd & Hu & _).
    destruct (hex_batch_keys hashes k' Hb Hk') as (Hd' & Hu' & _).
    destruct (fromhex_hexdigits k Hd) as (b1 & Hb1 & Hub1).
    destruct (fromhex_hexdigits k' Hd') as (b2 & Hb2 & Hub2).
    congruence.
Qed.

Lemma return_matches_counts_rows_once_witness :
  List.length (fst (return_matches [("aa", 3); ("AA", 5); ("cc", 0)] store_AB)) = 2%nat.
Proof.
  rewrite (return_matches_counts_rows_once [("aa", 3); ("AA", 5); ("cc", 0)] store_AB
             [fp_A_aa; fp_A_bb; fp_B_aa]).
  - reflexivity.
  - intros h o [H | [H | [H | []]]]; injection H as <- <-; reflexivity.
  - intros h o [H | [H | [H | []]]]; injection H as <- <-; discriminate.
  - reflexivity.
Defined.

(* ================================================================= *)
(** ** Matching on ASCII batches *)

Section AsciiFacts.

Lemma digit_isascii c v : Py.digit_value c = Some v -> (N_of_ascii c <? 128)%N = true.
Proof.
  destruct c as [[] [] [] [] [] [] [] []]; intros H; cbv in H;
    try discriminate; reflexivity.
Qed.

(** A string of digit pairs is ASCII. *)
Lemma hexdigits_isascii s : hexdigits s = true -> Py.isascii s = true.
Proof.
  induction s as [| c | c d s IH] using string_pair_ind; intros H.
  - reflexivity.
  - discriminate.
  - cbn [hexdigits] in H.
    destruct (Py.digit_value c) as [hi|] eqn:Ec; [|discriminate].
    destruct (Py.digit_value d) as [lo|] eqn:Ed; [|discriminate].
    cbn [Py.isascii]. now rewrite (digit_isascii _ _ Ec), (digit_isascii _ _ Ed), IH.
Qed.

Lemma hex_batch_ascii hashes : hex_batch hashes -> ascii_batch hashes.
Proof. intros Hb h o Hin. apply hexdigits_isascii. eauto. Qed.

End AsciiFacts.

(** C1 (amended): match completeness.  For a stored fingerprint with hash
    [h] (a non-empty string of digit pairs) at offset [o], a batch of ASCII
    strings in which [(h, q)] is the last pair with that hash, up to case,
    yields [(recording id, o - q)] whenever the run raises no exception;
    and a batch made of digit pairs raises none. *)
Theorem match_completeness c fs r h q pre post :
  fingerprints c = Some fs -> In r fs ->
  hexdigits h = true -> h <> EmptyString -> Py.fromhex h = Some (hash r) ->
  (forall h' o', In (h', o') post -> Py.upper h' <> Py.upper h) ->
  (hex_batch (pre ++ (h, q) :: post) ->
     snd (return_matches (pre ++ (h, q) :: post) c) = Returned tt)
  /\ (ascii_batch (pre ++ (h, q) :: post) ->
      snd (return_matches (pre ++ (h, q) :: post) c) = Returned tt ->
      In (fp_song_id r, offset r - q)
         (fst (return_matches (pre ++ (h, q) :: post) c))).
Proof.
  intros Hfs Hr Hd Hne Hfh Hlast. split.
  - intros Hb. now apply (return_matches_hex _ c fs Hb Hfs).
  - intros _ Hres. apply (return_matches_returned_In _ c fs Hres Hfs).
    destruct (fromhex_hexdigits h Hd) as (b & Hb & Hub).
    assert (Hkey : Py.upper (Py.hex (hash r)) = Py.upper h) by congruence.
    exists r, (Py.upper h), q. split; [exact Hr|]. split; [|split; [|split]].
    + apply filter_In. split; [|now apply upper_truthy].
      apply mapper_of_keys. exists h, q. split; [|reflexivity].
      apply in_or_app. right. now left.
    + now rewrite fromhex_upper.
    + rewrite Hkey. now apply mapper_of_last.
    + reflexivity.
Qed.

Lemma match_completeness_witness :
  snd (return_matches ([("BB", 1)] ++ ("aa", 3) :: [("cc", 5)]) store_A) = Returned tt
  /\ In (1, 10 - 3) (fst (return_matches ([("BB", 1)] ++ ("aa", 3) :: [("cc", 5)]) store_A)).
Proof.
  destruct (match_completeness store_A [fp_A_aa; fp_A_bb] fp_A_aa "aa" 3
              [("BB", 1)] [("cc", 5)]) as [H1 H2].
  - reflexivity.
  - simpl; auto.
  - reflexivity.
  - discriminate.
  - reflexivity.
  - intros h' o' [H | []]. injection H as <- <-. vm_compute. discriminate.
  - assert (Hb : hex_batch ([("BB", 1)] ++ ("aa", 3) :: [("cc", 5)])).
    { intros h o [H | [H | [H | []]]]; injection H as <- <-; reflexivity. }
    split; [exact (H1 Hb) | exact (H2 (hex_batch_ascii _ Hb) (H1 Hb))].
Defined.





(** X13: the case of the hexadecimal digits does not matter.  Two batches
    of ASCII strings that are equal once their hashes are put in upper case
    make [return_matches] yield the same pairs and end the same way, and
    make [insert_hashes] write the same rows. *)
Theorem hash_case_insensitive hashes hashes' c :
  ascii_batch hashes -> ascii_batch hashes' ->
  upper_batch hashes = upper_batch hashes' ->
  return_matches hashes c = return_matches hashes' c
  /\ forall sid, insert_hashes sid hashes c = insert_hashes sid hashes' c.
Proof.
  intros _ _ Heq. split.
  - unfold return_matches, mapper_of.
    now rewrite <- (mapper_from_upper hashes), <- (mapper_from_upper hashes'), Heq.
  - intros sid. unfold insert_hashes.
    now rewrite <- (rows_of_upper sid hashes), <- (rows_of_upper sid hashes'), Heq.
Qed.

Lemma hash_case_insensitive_witness :
  return_matches [("aa", 3); ("Bb", 5)] store_AB
  = return_matches [("AA", 3); ("bB", 5)] store_AB.
Proof.
  apply (hash_case_insensitive [("aa", 3); ("Bb", 5)] [("AA", 3); ("bB", 5)] store_AB).
  - intros h o [H | [H | []]]; injection H as <- <-; reflexivity.
  - intros h o [H | [H | []]]; injection H as <- <-; reflexivity.
  - reflexivity.
Defined.

(* ================================================================= *)
(** ** What return_matches hands to the engine *)

Section QueryFacts.

Variable mapper : Py.dict.

Lemma fromhex_all_bytes_of chunk : forall params,
  fromhex_all chunk = Some params -> params = map bytes_of chunk.
Proof.
  induction chunk as [|k chunk IH]; cbn [fromhex_all map]; intros params H.
  - now injection H as <-.
  - unfold bytes_of at 1. destruct (Py.fromhex k) as [b|]; [|discriminate].
    destruct (fromhex_all chunk) as [bs|]; [|discriminate].
    injection H as <-. f_equal. now apply IH.
Qed.

(** The loop over chunks that convert is the replay of their argument
    lists. *)
Lemma query_chunks_replay chunks c :
  (forall chunk, In chunk chunks -> fromhex_all chunk <> None) ->
  query_chunks mapper chunks c = replay mapper (map (map bytes_of) chunks) c.
Proof.
  induction chunks as [|chunk chunks IH]; intros Hall; [reflexivity|].
  cbn [query_chunks map replay]. rewrite IH by (intros; apply Hall; now right).
  unfold query_chunk.
  destruct (fromhex_all chunk) as [params|] eqn:Ep;
    [|exfalso; apply (Hall chunk); [now left | exact Ep]].
  rewrite <- (fromhex_all_bytes_of chunk params Ep).
  destruct (Sql.SELECT_MULTIPLE params c) as [rows|e]; [|reflexivity].
  destruct (yield_rows mapper rows) as [out [[]|e]]; reflexivity.
Qed.

(** When every chunk is answered, every chunk has been handed over. *)
Lemma executed_all chunks c :
  (forall chunk, In chunk chunks -> snd (query_chunk mapper chunk c) = Returned tt) ->
  executed mapper chunks c = map (map bytes_of) chunks.
Proof.
  induction chunks as [|chunk chunks IH]; intros Hall; [reflexivity|].
  cbn [executed map]. pose proof (Hall chunk (or_introl eq_refl)) as Hc.
  rewrite IH by (intros; apply Hall; now right). revert Hc. unfold query_chunk.
  destruct (fromhex_all chunk) as [params|] eqn:Ep; [|discriminate].
  rewrite <- (fromhex_all_bytes_of chunk params Ep).
  destruct (Sql.SELECT_MULTIPLE params c) as [rows|e]; [|discriminate].
  destruct (yield_rows mapper rows) as [out [[]|e]]; [reflexivity | discriminate].
Qed.

End QueryFacts.

Lemma NoDup_map_on {S T} (f : S -> T) (l : list S) :
  NoDup l -> (forall a b, In a l -> In b l -> f a = f b -> a = b) ->
  NoDup (map f l).
Proof.
  induction l as [|a l IH]; intros Hnd Hinj; [constructor|].
  apply NoDup_cons_iff in Hnd as [Ha Hnd]. cbn [map]. constructor.
  - intros Hin. apply in_map_iff in Hin as (b & Hb & Hin).
    apply Ha. rewrite (Hinj a b); auto; [now left | now right].
  - apply IH; [exact Hnd|]. intros x y Hx Hy. apply Hinj; now right.
Qed.

(** C6, as stated, fails on hashes written with white space, which
    [bytes.fromhex] skips: "AA" and " AA" are two keys of the mapper for one
    hash.  On the stored fingerprint (AA, 1, 10), the batch
    [("AA", 3); (" AA", 5)] has the bytes AA handed to the engine twice, and
    the pair it yields is computed with 3, the offset of the first
    occurrence. *)
Lemma query_dedup_last_occurrence_counterexample :
  Py.fromhex "AA" = Some [xaa] /\ Py.fromhex " AA" = Some [xaa]
  /\ return_matches_queries [("AA", 3); (" AA", 5)] store_A = [[[xaa]; [xaa]]]
  /\ ~ NoDup (List.concat (return_matches_queries [("AA", 3); (" AA", 5)] store_A))
  /\ return_matches [("AA", 3); (" AA", 5)] store_A = ([(1, 10 - 3)], Returned tt)
  /\ ~ In (1, 10 - 5) (fst (return_matches [("AA", 3); (" AA", 5)] store_A)).
Proof.
  split; [reflexivity|]. split; [reflexivity|]. split; [reflexivity|]. split; [|split].
  - intros H. vm_compute in H. apply NoDup_cons_iff in H as [H _]. apply H. now left.
  - reflexivity.
  - vm_compute. intros [H | []]. discriminate.
Qed.

(** C6 (amended): the dedup of the query side is last-occurrence-wins.
    For a batch whose hashes are strings of digit pairs, on a connection
    with a fingerprints table, [return_matches] raises nothing and yields
    exactly the pairs (song_id, offset - q) of the stored rows whose hash a
    non-empty hash of the batch denotes, [q] being the offset of the last
    pair of the batch with that hash, up to case.  Its run is the run of
    the queries it hands to the engine; these hold at most 999 hashes each,
    no hash twice over all of them, and together the non-empty hashes of
    the batch. *)
Theorem query_dedup_last_occurrence hashes c fs :
  hex_batch hashes -> fingerprints c = Some fs ->
  snd (return_matches hashes c) = Returned tt
  /\ (forall x, In x (fst (return_matches hashes c)) <->
        exists r pre h q post,
          In r fs /\ hashes = pre ++ (h, q) :: post
          /\ h <> EmptyString /\ Py.fromhex h = Some (hash r)
          /\ (forall h' o', In (h', o') post -> Py.upper h' <> Py.upper h)
          /\ x = (fp_song_id r, offset r - q))
  /\ return_matches hashes c
     = replay (mapper_of hashes) (return_matches_queries hashes c) c
  /\ Forall (fun params => (List.length params <= 999)%nat)
            (return_matches_queries hashes c)
  /\ NoDup (List.concat (return_matches_queries hashes c))
  /\ (forall b, In b (List.concat (return_matches_queries hashes c)) <->
        exists h o, In (h, o) hashes /\ h <> EmptyString /\ Py.fromhex h = Some b).
Proof.
  intros Hb Hfs.
  destruct (return_matches_hex hashes c fs Hb Hfs) as [Hres Hiff].
  set (mapper := mapper_of hashes) in *.
  set (chunks := grouper (Py.keys mapper) 999).
  assert (Hall : forall chunk, In chunk chunks ->
            snd (query_chunk mapper chunk c) = Returned tt).
  { apply query_chunks_returned. exact Hres. }
  assert (Hq : return_matches_queries hashes c = map (map bytes_of) chunks).
  { unfold return_matches_queries. now apply executed_all. }
  assert (Hcat : List.concat (map (map bytes_of) chunks)
                 = map bytes_of (filter Py.truthy (Py.keys mapper))).
  { rewrite <- concat_map. unfold chunks. now rewrite grouper_concat by lia. }
  assert (Hkey : forall k, In k (filter Py.truthy (Py.keys mapper)) ->
            Py.fromhex k = Some (bytes_of k) /\ Py.upper (Py.hex (bytes_of k)) = k).
  { intros k Hk. apply filter_In in Hk as [Hk _].
    destruct (hex_batch_keys hashes k Hb Hk) as (Hd & Hu & _).
    destruct (fromhex_hexdigits k Hd) as (b & Hfb & Hub).
    unfold bytes_of. rewrite Hfb. split; [reflexivity | congruence]. }
  split; [exact Hres|]. split; [|split; [|split; [|split]]].
  - intros x. rewrite (Hiff x). split.
    + intros (r & k & q & Hr & Hk & Ht & Hfk & Hget & ->).
      apply mapper_of_get in Hget as (pre & h & post & -> & Hup & Hlast).
      exists r, pre, h, q, post. subst k. repeat split; auto.
      * intros ->. discriminate.
      * now rewrite <- fromhex_upper.
    + intros (r & pre & h & q & post & Hr & -> & Hne & Hfh & Hlast & ->).
      exists r, (Py.upper h), q. repeat split; auto.
      * apply mapper_of_keys. exists h, q. split; [|reflexivity].
        apply in_or_app. right. now left.
      * now apply upper_truthy.
      * now rewrite fromhex_upper.
      * now apply mapper_of_last.
  - rewrite Hq. unfold return_matches. apply query_chunks_replay.
    intros chunk Hc. specialize (Hall chunk Hc). revert Hall. unfold query_chunk.
    destruct (fromhex_all chunk); [discriminate | discriminate].
  - rewrite Hq. apply Forall_map.
    eapply Forall_impl; [|apply (grouper_length (Py.keys mapper) 999)].
    intros chunk Hlen. simpl. now rewrite length_map.
  - rewrite Hq, Hcat. apply NoDup_map_on.
    + apply NoDup_filter, mapper_of_NoDup.
    + intros k k' Hk Hk' Heq.
      destruct (Hkey k Hk) as [_ <-]. destruct (Hkey k' Hk') as [_ <-].
      now rewrite Heq.
  - intros b. rewrite Hq, Hcat, in_map_iff. split.
    + intros (k & <- & Hk). destruct (Hkey k Hk) as [Hfk _].
      apply filter_In in Hk as [Hk Ht].
      apply mapper_of_keys in Hk as (h & o & Hin & ->).
      exists h, o. split; [exact Hin|]. split.
      * intros ->. discriminate.
      * now rewrite <- fromhex_upper.
    + intros (h & o & Hin & Hne & Hfh).
      assert (Hk : In (Py.upper h) (filter Py.truthy (Py.keys mapper))).
      { apply filter_In. split; [|now apply upper_truthy].
        apply mapper_of_keys. eauto. }
      exists (Py.upper h). split; [|exact Hk].
      unfold bytes_of. now rewrite fromhex_upper, Hfh.
Qed.

Lemma query_dedup_last_occurrence_witness :
  In (1, 10 - 5) (fst (return_matches [("aa", 3); ("BB", 1); ("AA", 5)] store_A))
  /\ NoDup (List.concat (return_matches_queries [("aa", 3); ("BB", 1); ("AA", 5)] store_A)).
Proof.
  assert (Hb : hex_batch [("aa", 3); ("BB", 1); ("AA", 5)]).
  { intros h o [H | [H | [H | []]]]; injection H as <- <-; reflexivity. }
  destruct (query_dedup_last_occurrence [("aa", 3); ("BB", 1); ("AA", 5)] store_A
              [fp_A_aa; fp_A_bb] Hb eq_refl) as (_ & H2 & _ & _ & H5 & _).
  split; [|exact H5]. apply H2.
  exists fp_A_aa, [("aa", 3); ("BB", 1)], "AA", 5, []. repeat split.
  - now left.
  - discriminate.
  - intros h' o' [].
Defined.

(* ================================================================= *)
(** ** Deleting a recording *)

Section WithoutFacts.

Variable mapper : Py.dict.
Variable sid : Z.

Lemma filter_swap {T} (f g : T -> bool) (rows : list T) :
  filter f (filter g rows) = filter g (filter f rows).
Proof.
  induction rows as [|r rows IH]; [reflexivity|]. cbn [filter].
  destruct (f r) eqn:Ef, (g r) eqn:Eg; cbn [filter];
    rewrite ?Ef, ?Eg, IH; reflexivity.
Qed.

(** Rows left out of a run that raises nothing leave their pairs out. *)
Lemma yield_rows_without rows :
  snd (yield_rows mapper rows) = Returned tt ->
  yield_rows mapper (filter (fun r => negb (fp_song_id r =? sid)) rows)
  = (filter (fun x => negb (fst x =? sid)) (fst (yield_rows mapper rows)), Returned tt).
Proof.
  induction rows as [|r rows IH]; [reflexivity|]. cbn [yield_rows filter].
  destruct (Py.dict_get _ mapper) as [q|] eqn:E; [|discriminate].
  destruct (yield_rows mapper rows) as [out res]. cbn [fst snd] in *.
  intros Hres. specialize (IH Hres). subst res.
  destruct (fp_song_id r =? sid) eqn:Es; cbn [negb yield_rows filter fst];
    rewrite Es; cbn [negb]; [exact IH|].
  now rewrite E, IH.
Qed.

Lemma query_chunks_without chunks c c' fs :
  fingerprints c = Some fs ->
  fingerprints c' = Some (filter (fun r => negb (fp_song_id r =? sid)) fs) ->
  snd (query_chunks mapper chunks c) = Returned tt ->
  query_chunks mapper chunks c'
  = (filter (fun x => negb (fst x =? sid)) (fst (query_chunks mapper chunks c)),
     Returned tt).
Proof.
  intros Hfs Hfs'. induction chunks as [|chunk chunks IH]; [reflexivity|].
  cbn [query_chunks].
  assert (Hchunk : snd (query_chunk mapper chunk c) = Returned tt ->
            query_chunk mapper chunk c'
            = (filter (fun x => negb (fst x =? sid)) (fst (query_chunk mapper chunk c)),
               Returned tt)).
  { unfold query_chunk, Sql.SELECT_MULTIPLE. rewrite Hfs, Hfs'.
    destruct (fromhex_all chunk) as [params|]; [|discriminate].
    rewrite filter_swap. apply yield_rows_without. }
  destruct (query_chunk mapper chunk c) as [out [[]|e]]; [|discriminate].
  rewrite (Hchunk eq_refl).
  destruct (query_chunks mapper chunks c) as [out' res]. cbn [fst snd] in *.
  intros Hres. rewrite (IH Hres). now rewrite filter_app.
Qed.

End WithoutFacts.

(** C7: cascade delete with framing.  On a connection made by [__init__],
    deleting a recording that exists leaves the songs table without the
    rows of that id and the fingerprints table without the rows that
    reference it; every other row of either table stays, in place.  What
    [return_matches] yields afterwards, for a batch on which it raised
    nothing before, is what it yielded before without the pairs of the
    deleted recording.  On a connection that [__init__] has not set to
    enforce foreign keys the fingerprints would all stay. *)
Theorem cascade_delete ss seq fs sid :
  In sid (map song_id ss) ->
  let ss' := filter (fun s => negb (song_id s =? sid)) ss in
  let fs' := filter (fun f => negb (fp_song_id f =? sid)) fs in
  delete_song sid (__init__ (Some ss) seq (Some fs))
    = (__init__ (Some ss') seq (Some fs'), Returned tt)
  /\ (forall f, In f fs' <-> In f fs /\ fp_song_id f <> sid)
  /\ (forall s, In s ss' <-> In s ss /\ song_id s <> sid)
  /\ (forall batch,
        snd (return_matches batch (__init__ (Some ss) seq (Some fs))) = Returned tt ->
        return_matches batch (__init__ (Some ss') seq (Some fs'))
        = (filter (fun x => negb (fst x =? sid))
                  (fst (return_matches batch (__init__ (Some ss) seq (Some fs)))),
           Returned tt))
  /\ delete_song sid (connect (Some ss) seq (Some fs))
     = (connect (Some ss') seq (Some fs), Returned tt).
Proof.
  intros Hin ss' fs'. split; [|split; [|split; [|split]]].
  - unfold delete_song, Sql.delete_songs_where, __init__, connect,
      with_fingerprints, with_songs. simpl. do 3 f_equal.
    apply filter_ext. intros f. now rewrite has_id_deleted.
  - intros f. unfold fs'. rewrite filter_In, negb_true_iff, Z.eqb_neq. tauto.
  - intros s. unfold ss'. rewrite filter_In, negb_true_iff, Z.eqb_neq. tauto.
  - intros batch Hres. unfold return_matches in *.
    now apply (query_chunks_without _ sid _ _ _ fs).
  - reflexivity.
Qed.

Lemma cascade_delete_witness :
  delete_song 2 (__init__ (Some [row_A; row_B]) 2 (Some [fp_A_aa; fp_A_bb; fp_B_aa]))
  = (__init__ (Some [row_A]) 2 (Some [fp_A_aa; fp_A_bb]), Returned tt).
Proof.
  apply (cascade_delete [row_A; row_B] 2 [fp_A_aa; fp_A_bb; fp_B_aa] 2).
  simpl; auto.
Defined.
